(** * cyclones.re: the viewer's data-loading hook and its collaborators

    A shallow embedding of
    - [useCycloneData] (the React hook of the web viewer: initial load,
      default-snapshot selection, prefetch of the recent window,
      [loadSnapshot] navigation),
    - the index generator of [meteo-france-api/fetch_api.ts]
      ([getJsonFiles], [generateJSON]),
    - the two helpers of [utils/api.ts] that the hook and the map use
      ([bboxToLeafletBounds], the memoising snapshot loader).

    JavaScript numbers that hold epoch times, indices and counters are
    integers in this program and are modelled by [Z] and [nat]; the
    sentinel [Infinity] of the nearest-timestamp scan gets a constructor
    of its own, and the one quotient that is rounded, the progress
    percentage, is computed in binary64.  Asynchronous functions are cut at their [await]s: every
    segment between two suspension points is a function on the
    configuration, and the event loop is a step function over the events
    that resume them. *)

From Stdlib Require Import QArith Ascii String SpecFloat.
From stdpp Require Import base numbers list strings gmap pretty sorting.

Local Open Scope Z_scope.

(** ** Data model (types/index.ts as used by the hook) *)

Module Types.

(** Modelled from the spec: [interface SatelliteImageData] of
    [types/index.ts], which is not among the sources; the README of the
    web app gives it as a file path and a bounding box
    [minLon, minLat, maxLon, maxLat] in degrees. *)
Record SatelliteImageData := {
  file : string;
  bbox : Q * Q * Q * Q
}.

(** Modelled from the spec: [interface SnapshotMetadata] of
    [types/index.ts], one entry of the index.  The hook reads [timestamp]
    and the [file] of the two optional satellite entries;
    [trajectory_ref] is the specification's name for the resource
    reference on which the loader keys its cache. *)
Record SnapshotMetadata := {
  timestamp : Z;
  trajectory_ref : string;
  satellite_ir108 : option SatelliteImageData;
  satellite_rgb_naturalenhncd : option SatelliteImageData
}.

(** Modelled from the spec: [LoadedSnapshot], the parsed trajectory
    document, opaque to the hook. *)
Record LoadedSnapshot := { payload : string }.

(** A value thrown or used as a rejection reason: either an [Error]
    object with its message or any other value. *)
Inductive JsValue :=
| ErrorObject (message : string)
| OtherValue (shown : string).

End Types.
Export Types.

(** ** The nearest-timestamp scan of [init] *)

Module DefaultIndex.

(** [minDiff] starts at [Infinity]. *)
Inductive Diff :=
| Finite (d : Z)
| Infinity.

(** [diff < minDiff] *)
Definition lt_diff (diff : Z) (minDiff : Diff) : bool :=
  match minDiff with
  | Infinity => true
  | Finite m => diff <? m
  end.

(** [Date.now() - 2 * 24 * 60 * 60 * 1000] *)
Definition twoDaysAgo (now : Z) : Z := now - 2 * 24 * 60 * 60 * 1000.

(** [Math.abs(data[i].timestamp - twoDaysAgo)] *)
Definition distance (horizon : Z) (meta : SnapshotMetadata) : Z :=
  Z.abs (timestamp meta - horizon).

(** The [for] loop, from index [i] on, over the entries not yet visited. *)
Fixpoint scanFrom (rest : list SnapshotMetadata) (horizon : Z)
    (i initialIndex : nat) (minDiff : Diff) : nat * Diff :=
  match rest with
  | [] => (initialIndex, minDiff)
  | meta :: rest' =>
      let diff := distance horizon meta in
      if lt_diff diff minDiff
      then scanFrom rest' horizon (S i) i (Finite diff)
      else scanFrom rest' horizon (S i) initialIndex minDiff
  end.

(** [let initialIndex = 0; let minDiff = Infinity; for (...) {...}] *)
Definition findDefaultIndex (data : list SnapshotMetadata) (horizon : Z) : nat :=
  fst (scanFrom data horizon 0 0 Infinity).

(** [data.filter((meta) => meta.timestamp >= twoDaysAgo)] *)
Definition snapshotsToPrefetch (data : list SnapshotMetadata) (horizon : Z)
    : list SnapshotMetadata :=
  List.filter (fun meta => horizon <=? timestamp meta) data.

(** What the scan has established after visiting the prefix [seen]. *)
Definition scanned (horizon : Z) (seen : list SnapshotMetadata)
    (initialIndex : nat) (minDiff : Diff) : Prop :=
  match minDiff with
  | Infinity => seen = [] ∧ initialIndex = 0%nat
  | Finite d =>
      (∃ meta, seen !! initialIndex = Some meta ∧ distance horizon meta = d) ∧
      (∀ j meta, seen !! j = Some meta → d ≤ distance horizon meta) ∧
      (∀ j meta, seen !! j = Some meta → (j < initialIndex)%nat →
                 d < distance horizon meta)
  end.

End DefaultIndex.

(** ** The hook [useCycloneData] *)

Module Hook.
Import DefaultIndex.

(** The eight [useState] cells. *)
Record HookState := {
  metadata : list SnapshotMetadata;
  currentSnapshot : option LoadedSnapshot;
  currentMetadata : option SnapshotMetadata;
  isLoading : bool;
  loadingMessage : string;
  loadingProgress : Z;
  error : option string;
  defaultIndex : nat
}.

(** The initial values handed to [useState]. *)
Definition initialState : HookState := {|
  metadata := [];
  currentSnapshot := None;
  currentMetadata := None;
  isLoading := true;
  loadingMessage := "Chargement des métadonnées...";
  loadingProgress := 0;
  error := None;
  defaultIndex := 0
|}.

(** How a promise settles. *)
Inductive Settled (A : Type) :=
| Fulfilled (value : A)
| Rejected (reason : JsValue).
Arguments Fulfilled {A} value.
Arguments Rejected {A} reason.

(** One element of [snapshotsToPrefetch.map(async (meta) => {...})]: where
    the arrow function is suspended, or how its promise settled. *)
Inductive EntryState :=
| FetchingSnapshot
| PreloadingImages (pending : nat)
| EntryFulfilled
| EntryRejected.

(** Where [init] is suspended. *)
Inductive InitPhase :=
| AwaitMetadata
| AwaitPrefetch (data : list SnapshotMetadata) (initialIndex : nat)
| AwaitDefault (data : list SnapshotMetadata) (initialIndex : nat)
| InitReturned.

(** The hook's cells together with what its closures hold: the [mounted]
    flag of the effect, the locals of [init] that live across awaits
    ([total], [completed], the mapped entries), the [loadSnapshot] calls
    suspended at their [await], the console and the rejections nobody
    handled. *)
Record Config := {
  hook : HookState;
  mounted : bool;
  phase : InitPhase;
  prefetch : list (SnapshotMetadata * EntryState);
  total : nat;
  completed : nat;
  navigation : list (option SnapshotMetadata);
  console : list JsValue;
  uncaught : list JsValue
}.

Definition with_hook (f : HookState → HookState) (c : Config) : Config :=
  {| hook := f (hook c); mounted := mounted c; phase := phase c;
     prefetch := prefetch c; total := total c; completed := completed c;
     navigation := navigation c; console := console c; uncaught := uncaught c |}.

Definition with_mounted (b : bool) (c : Config) : Config :=
  {| hook := hook c; mounted := b; phase := phase c;
     prefetch := prefetch c; total := total c; completed := completed c;
     navigation := navigation c; console := console c; uncaught := uncaught c |}.

Definition with_phase (p : InitPhase) (c : Config) : Config :=
  {| hook := hook c; mounted := mounted c; phase := p;
     prefetch := prefetch c; total := total c; completed := completed c;
     navigation := navigation c; console := console c; uncaught := uncaught c |}.

Definition with_prefetch (l : list (SnapshotMetadata * EntryState)) (c : Config) : Config :=
  {| hook := hook c; mounted := mounted c; phase := phase c;
     prefetch := l; total := total c; completed := completed c;
     navigation := navigation c; console := console c; uncaught := uncaught c |}.

Definition with_total (n : nat) (c : Config) : Config :=
  {| hook := hook c; mounted := mounted c; phase := phase c;
     prefetch := prefetch c; total := n; completed := completed c;
     navigation := navigation c; console := console c; uncaught := uncaught c |}.

Definition with_completed (n : nat) (c : Config) : Config :=
  {| hook := hook c; mounted := mounted c; phase := phase c;
     prefetch := prefetch c; total := total c; completed := n;
     navigation := navigation c; console := console c; uncaught := uncaught c |}.

Definition with_navigation (l : list (option SnapshotMetadata)) (c : Config) : Config :=
  {| hook := hook c; mounted := mounted c; phase := phase c;
     prefetch := prefetch c; total := total c; completed := completed c;
     navigation := l; console := console c; uncaught := uncaught c |}.

Definition with_console (l : list JsValue) (c : Config) : Config :=
  {| hook := hook c; mounted := mounted c; phase := phase c;
     prefetch := prefetch c; total := total c; completed := completed c;
     navigation := navigation c; console := l; uncaught := uncaught c |}.

Definition with_uncaught (l : list JsValue) (c : Config) : Config :=
  {| hook := hook c; mounted := mounted c; phase := phase c;
     prefetch := prefetch c; total := total c; completed := completed c;
     navigation := navigation c; console := console c; uncaught := l |}.

(** *** Code between two suspension points: state and exceptions *)

Inductive Completion (A : Type) :=
| Normal (value : A)
| Throw (thrown : JsValue).
Arguments Normal {A} value.
Arguments Throw {A} thrown.

Definition Js (A : Type) : Type := Config → Completion A * Config.

Definition ret {A} (a : A) : Js A := fun c => (Normal a, c).

Definition bind {A B} (m : Js A) (k : A → Js B) : Js B :=
  fun c =>
    match m c with
    | (Normal a, c') => k a c'
    | (Throw e, c') => (Throw e, c')
    end.

Definition throw {A} (e : JsValue) : Js A := fun c => (Throw e, c).

(** [try { body } catch (err) { handler }] *)
Definition try_catch {A} (body : Js A) (handler : JsValue → Js A) : Js A :=
  fun c =>
    match body c with
    | (Normal a, c') => (Normal a, c')
    | (Throw e, c') => handler e c'
    end.

Definition read {A} (f : Config → A) : Js A := fun c => (Normal (f c), c).
Definition update (f : Config → Config) : Js unit := fun c => (Normal tt, f c).

(** Resuming at an [await] with the way the awaited promise settled. *)
Definition await {A} (r : Settled A) : Js A :=
  match r with
  | Fulfilled a => ret a
  | Rejected e => throw e
  end.

Notation "'let*' x ':=' m 'in' k" := (bind m (fun x => k))
  (at level 10, x name, m at level 100, k at level 200, only parsing).

(** The state setters returned by [useState]. *)
Definition setMetadata (v : list SnapshotMetadata) : Js unit :=
  update (with_hook (fun h =>
    {| metadata := v; currentSnapshot := currentSnapshot h;
       currentMetadata := currentMetadata h; isLoading := isLoading h;
       loadingMessage := loadingMessage h; loadingProgress := loadingProgress h;
       error := error h; defaultIndex := defaultIndex h |})).

Definition setCurrentSnapshot (v : option LoadedSnapshot) : Js unit :=
  update (with_hook (fun h =>
    {| metadata := metadata h; currentSnapshot := v;
       currentMetadata := currentMetadata h; isLoading := isLoading h;
       loadingMessage := loadingMessage h; loadingProgress := loadingProgress h;
       error := error h; defaultIndex := defaultIndex h |})).

Definition setCurrentMetadata (v : option SnapshotMetadata) : Js unit :=
  update (with_hook (fun h =>
    {| metadata := metadata h; currentSnapshot := currentSnapshot h;
       currentMetadata := v; isLoading := isLoading h;
       loadingMessage := loadingMessage h; loadingProgress := loadingProgress h;
       error := error h; defaultIndex := defaultIndex h |})).

Definition setIsLoading (v : bool) : Js unit :=
  update (with_hook (fun h =>
    {| metadata := metadata h; currentSnapshot := currentSnapshot h;
       currentMetadata := currentMetadata h; isLoading := v;
       loadingMessage := loadingMessage h; loadingProgress := loadingProgress h;
       error := error h; defaultIndex := defaultIndex h |})).

Definition setLoadingMessage (v : string) : Js unit :=
  update (with_hook (fun h =>
    {| metadata := metadata h; currentSnapshot := currentSnapshot h;
       currentMetadata := currentMetadata h; isLoading := isLoading h;
       loadingMessage := v; loadingProgress := loadingProgress h;
       error := error h; defaultIndex := defaultIndex h |})).

Definition setLoadingProgress (v : Z) : Js unit :=
  update (with_hook (fun h =>
    {| metadata := metadata h; currentSnapshot := currentSnapshot h;
       currentMetadata := currentMetadata h; isLoading := isLoading h;
       loadingMessage := loadingMessage h; loadingProgress := v;
       error := error h; defaultIndex := defaultIndex h |})).

Definition setError (v : option string) : Js unit :=
  update (with_hook (fun h =>
    {| metadata := metadata h; currentSnapshot := currentSnapshot h;
       currentMetadata := currentMetadata h; isLoading := isLoading h;
       loadingMessage := loadingMessage h; loadingProgress := loadingProgress h;
       error := v; defaultIndex := defaultIndex h |})).

Definition setDefaultIndex (v : nat) : Js unit :=
  update (with_hook (fun h =>
    {| metadata := metadata h; currentSnapshot := currentSnapshot h;
       currentMetadata := currentMetadata h; isLoading := isLoading h;
       loadingMessage := loadingMessage h; loadingProgress := loadingProgress h;
       error := error h; defaultIndex := v |})).

(** *** [init] *)

(** [err instanceof Error ? err.message : 'Erreur inconnue'] *)
Definition errorMessage (err : JsValue) : string :=
  match err with
  | ErrorObject message => message
  | OtherValue _ => "Erreur inconnue"
  end.

(** The [catch (err)] block of [init]. *)
Definition init_catch (err : JsValue) : Js InitPhase :=
  let* m := read mounted in
  if negb m then ret InitReturned
  else
    let* _ := setError (Some (errorMessage err)) in
    let* _ := setIsLoading false in
    ret InitReturned.

(** [if (meta.satellite_X?.file) imagePromises.push(preloadImage(...))]:
    a promise is pushed when the entry is there and its path is not the
    empty string. *)
Definition preloadOf (o : option SatelliteImageData) : list string :=
  match o with
  | Some d => if String.eqb (file d) "" then [] else [file d]
  | None => []
  end.

(** The paths behind [imagePromises], IR108 first. *)
Definition imagePromises (meta : SnapshotMetadata) : list string :=
  preloadOf (satellite_ir108 meta) ++ preloadOf (satellite_rgb_naturalenhncd meta).

(** JavaScript numbers where their rounding shows: IEEE 754 binary64,
    every operation rounded to nearest, ties to even. *)
Module Number.

Definition prec : Z := 53.
Definition emax : Z := 1024.

(** The number that an integer literal or a counter denotes. *)
Definition of_Z (n : Z) : spec_float := SpecFloat.binary_normalize prec emax n 0 false.

(** [x / y] and [x * y] *)
Definition div (x y : spec_float) : spec_float := SpecFloat.SFdiv prec emax x y.
Definition mul (x y : spec_float) : spec_float := SpecFloat.SFmul prec emax x y.

End Number.

Module Math.

(** [Math.round(x)]: the integer nearest to [x], the greater one of two
    equally near.  For a finite [x = ±m·2^e] that is [⌊x + 1/2⌋], taken
    exactly.  Of [NaN] and the infinities, which [Math.round] returns
    as they are and which are no integers, the model keeps 0: they need
    a zero divisor, and the only call sits under [if (total > 0)]. *)
Definition round (x : spec_float) : Z :=
  match x with
  | S754_finite s m e =>
      let n := if s then Z.neg m else Z.pos m in
      if 0 <=? e then n * 2 ^ e
      else (2 * n + 2 ^ (- e)) / 2 ^ (1 - e)
  | _ => 0
  end.

End Math.

(** [Math.round((completed / total) * 100)] *)
Definition progressOf (completed total : nat) : Z :=
  Math.round (Number.mul (Number.div (Number.of_Z (Z.of_nat completed))
                                     (Number.of_Z (Z.of_nat total)))
                         (Number.of_Z 100)).

(** From [if (!mounted) return] after the [Promise.all] to the call of
    [fetchSnapshotData(data[initialIndex])]. *)
Definition init_after_prefetch (data : list SnapshotMetadata) (initialIndex : nat)
    : Js InitPhase :=
  let* m := read mounted in
  if negb m then ret InitReturned
  else
    let* _ := setLoadingMessage "Prêt !" in
    let* _ := setLoadingProgress 100 in
    ret (AwaitDefault data initialIndex).

(** From the resumption of [await loadMetadata()] to the next
    suspension; [now] is what [Date.now()] returns there. *)
Definition init_after_metadata (r : Settled (list SnapshotMetadata)) (now : Z)
    : Js InitPhase :=
  let* data := await r in
  let* m := read mounted in
  if negb m then ret InitReturned
  else
    let* _ := setMetadata data in
    if (length data =? 0)%nat then
      let* _ := setIsLoading false in
      ret InitReturned
    else
      let horizon := twoDaysAgo now in
      let toPrefetch := snapshotsToPrefetch data horizon in
      let initialIndex := findDefaultIndex data horizon in
      let* _ := setDefaultIndex initialIndex in
      let* _ := setLoadingMessage "Préchargement des données..." in
      let* _ := update (with_total (length toPrefetch)) in
      let* _ := update (with_completed 0) in
      if (0 <? length toPrefetch)%nat then
        let* _ := update (with_prefetch
                            ((fun meta => (meta, FetchingSnapshot)) <$> toPrefetch)) in
        ret (AwaitPrefetch data initialIndex)
      else init_after_prefetch data initialIndex.

(** From the resumption of [await fetchSnapshotData(data[initialIndex])]
    to the end of the [try] block. *)
Definition init_after_default (r : Settled LoadedSnapshot)
    (data : list SnapshotMetadata) (initialIndex : nat) : Js InitPhase :=
  let* defaultSnapshot := await r in
  let* m := read mounted in
  if negb m then ret InitReturned
  else
    let* _ := setCurrentSnapshot (Some defaultSnapshot) in
    let* _ := setCurrentMetadata (data !! initialIndex) in
    let* _ := setIsLoading false in
    ret InitReturned.

(** Running a segment of [init] inside its [try]/[catch]; whatever
    escaped would reject the promise of [init()], which nobody awaits. *)
Definition resume_init (segment : Js InitPhase) (c : Config) : Config :=
  match try_catch segment init_catch c with
  | (Normal p, c') => with_phase p c'
  | (Throw e, c') => with_phase InitReturned (with_uncaught (uncaught c' ++ [e]) c')
  end.

(** *** The prefetch entries *)

(** [completed++] and the guarded progress report. *)
Definition entry_complete : Js EntryState :=
  let* n := read completed in
  let* _ := update (with_completed (S n)) in
  let* m := read mounted in
  if m then
    let* t := read total in
    let* _ := setLoadingProgress (progressOf (S n) t) in
    let* _ := setLoadingMessage
                ("Préchargement des données... " +:+ pretty (S n) +:+ "/" +:+ pretty t) in
    ret EntryFulfilled
  else ret EntryFulfilled.

(** An entry resumed at [await fetchSnapshotData(meta)]. *)
Definition entry_after_snapshot (meta : SnapshotMetadata) (r : Settled LoadedSnapshot)
    : Js EntryState :=
  let* _ := await r in
  match length (imagePromises meta) with
  | O => entry_complete
  | S n => ret (PreloadingImages (S n))
  end.

(** One of the image promises settles while the entry waits on
    [Promise.all(imagePromises)]: a rejection rejects the join at once,
    the last fulfilment fulfils it. *)
Definition entry_after_image (pending : nat) (r : Settled unit) : Js EntryState :=
  let* _ := await r in
  match pending with
  | S (S n) => ret (PreloadingImages (S n))
  | _ => entry_complete
  end.

Definition isFulfilled (e : SnapshotMetadata * EntryState) : bool :=
  match e.2 with
  | EntryFulfilled => true
  | _ => false
  end.

(** The outer [Promise.all] after entry [k] moved: it rejects with the
    first rejection, fulfils once every entry has, and has no effect on
    an [init] that is no longer waiting on it. *)
Definition resume_entry (k : nat) (meta : SnapshotMetadata) (segment : Js EntryState)
    (c : Config) : Config :=
  match segment c with
  | (Normal st, c') =>
      let c'' := with_prefetch (<[k := (meta, st)]> (prefetch c')) c' in
      match phase c'' with
      | AwaitPrefetch data initialIndex =>
          if forallb isFulfilled (prefetch c'')
          then resume_init (init_after_prefetch data initialIndex) c''
          else c''
      | _ => c''
      end
  | (Throw e, c') =>
      let c'' := with_prefetch (<[k := (meta, EntryRejected)]> (prefetch c')) c' in
      match phase c'' with
      | AwaitPrefetch _ _ => resume_init (throw e) c''
      | _ => c''
      end
  end.

(** *** [loadSnapshot] *)

(** [loadSnapshot(index)] up to its [await]: [None] when it returned at
    the bounds check, [Some meta] when it is suspended on
    [fetchSnapshotData(meta)]. *)
Definition loadSnapshot_call (index : Z) : Js (option SnapshotMetadata) :=
  let* known := read (fun c => metadata (hook c)) in
  if (index <? 0) || (Z.of_nat (length known) <=? index) then ret None
  else
    match known !! Z.to_nat index with
    | Some meta =>
        let* _ := setCurrentMetadata (Some meta) in
        ret (Some meta)
    | None => ret None
    end.

(** [console.error('Error loading snapshot:', err)] *)
Definition console_error (err : JsValue) : Js unit :=
  let* out := read console in
  update (with_console (out ++ [err])).

(** The [try]/[catch] of [loadSnapshot], resumed at its [await]. *)
Definition loadSnapshot_resume (r : Settled LoadedSnapshot) : Js unit :=
  try_catch
    (let* snapshot := await r in
     setCurrentSnapshot (Some snapshot))
    (fun err => console_error err).

(** *** The event loop *)

(** What can happen to a rendered hook: the effect's cleanup runs, one
    of the promises [init] or an entry waits on settles, the UI calls
    [loadSnapshot], or the fetch of such a call settles. *)
Inductive Event :=
| Unmount
| MetadataSettled (r : Settled (list SnapshotMetadata)) (now : Z)
| EntrySnapshotSettled (k : nat) (r : Settled LoadedSnapshot)
| EntryImageSettled (k : nat) (r : Settled unit)
| DefaultSettled (r : Settled LoadedSnapshot)
| LoadSnapshot (index : Z)
| NavigationSettled (k : nat) (r : Settled LoadedSnapshot).

(** First render and the synchronous start of [init]: the two setters
    before [await loadMetadata()]. *)
Definition start : Config :=
  let c := {| hook := initialState; mounted := true; phase := AwaitMetadata;
              prefetch := []; total := 0; completed := 0;
              navigation := []; console := []; uncaught := [] |} in
  snd ((let* _ := setLoadingMessage "Chargement des métadonnées..." in
        setLoadingProgress 0) c).

(** An event that finds nothing waiting for it changes nothing. *)
Definition step (c : Config) (ev : Event) : Config :=
  match ev with
  | Unmount => with_mounted false c
  | MetadataSettled r now =>
      match phase c with
      | AwaitMetadata => resume_init (init_after_metadata r now) c
      | _ => c
      end
  | EntrySnapshotSettled k r =>
      match prefetch c !! k with
      | Some (meta, FetchingSnapshot) =>
          resume_entry k meta (entry_after_snapshot meta r) c
      | _ => c
      end
  | EntryImageSettled k r =>
      match prefetch c !! k with
      | Some (meta, PreloadingImages pending) =>
          resume_entry k meta (entry_after_image pending r) c
      | _ => c
      end
  | DefaultSettled r =>
      match phase c with
      | AwaitDefault data initialIndex =>
          resume_init (init_after_default r data initialIndex) c
      | _ => c
      end
  | LoadSnapshot index =>
      match loadSnapshot_call index c with
      | (Normal (Some meta), c') =>
          with_navigation (navigation c' ++ [Some meta]) c'
      | (Normal None, c') => c'
      | (Throw e, c') => with_uncaught (uncaught c' ++ [e]) c'
      end
  | NavigationSettled k r =>
      match navigation c !! k with
      | Some (Some _) =>
          match loadSnapshot_resume r c with
          | (Normal _, c') => with_navigation (<[k := None]> (navigation c')) c'
          | (Throw e, c') =>
              with_navigation (<[k := None]> (navigation c'))
                (with_uncaught (uncaught c' ++ [e]) c')
          end
      | _ => c
      end
  end.

(** The suspension points of [init] in program order. *)
Definition rank (p : InitPhase) : nat :=
  match p with
  | AwaitMetadata => 0
  | AwaitPrefetch _ _ => 1
  | AwaitDefault _ _ => 2
  | InitReturned => 3
  end.

(** A schedule, from the left. *)
Definition run (c : Config) (evs : list Event) : Config := foldl step c evs.

(** Events that come from the UI navigating with [loadSnapshot]; the
    others belong to the effect and to [init]. *)
Definition navigates (ev : Event) : bool :=
  match ev with
  | LoadSnapshot _ | NavigationSettled _ _ => true
  | _ => false
  end.

(** The failures of the initial load: [loadMetadata()] rejects while
    [init] waits for it, or, while [init] waits on the [Promise.all] of
    the prefetch batch, the snapshot fetch of an entry or one of its
    image preloads rejects. *)
Inductive init_failure (c : Config) : Event → JsValue → Prop :=
| metadata_fails e now :
    phase c = AwaitMetadata →
    init_failure c (MetadataSettled (Rejected e) now) e
| entry_snapshot_fails data initialIndex k meta e :
    phase c = AwaitPrefetch data initialIndex →
    prefetch c !! k = Some (meta, FetchingSnapshot) →
    init_failure c (EntrySnapshotSettled k (Rejected e)) e
| entry_image_fails data initialIndex k meta pending e :
    phase c = AwaitPrefetch data initialIndex →
    prefetch c !! k = Some (meta, PreloadingImages pending) →
    init_failure c (EntryImageSettled k (Rejected e)) e.

(** *** Predicates and tactics for the proofs *)

Ltac js_unfold :=
  cbv [init_after_metadata init_after_prefetch init_after_default init_catch
       entry_complete entry_after_snapshot entry_after_image
       loadSnapshot_call loadSnapshot_resume console_error
       setMetadata setCurrentSnapshot setCurrentMetadata setIsLoading
       setLoadingMessage setLoadingProgress setError setDefaultIndex
       bind ret throw try_catch read update await] in *.

Ltac js_simpl :=
  simpl;
  repeat (match goal with
          | H : mounted _ = _ |- _ => rewrite H
          end; simpl).

Ltac js_cases c :=
  unfold resume_init; js_unfold; simpl;
  destruct (mounted c) eqn:?; js_simpl.

(** Before the index has arrived the store is empty and nothing is in
    flight but [loadMetadata()]: the cells hold their initial values. *)
Definition pristine (c : Config) : Prop :=
  hook c = initialState ∧ prefetch c = [] ∧ navigation c = [] ∧
  console c = [] ∧ uncaught c = [].

Ltac step_cases ev :=
  destruct ev; unfold step, resume_entry, resume_init; js_unfold; simpl;
  repeat (case_match; simpl in *; simplify_eq; try done).

(** [init] has returned on an empty store and nothing is in flight. *)
Definition idle (c : Config) : Prop :=
  phase c = InitReturned ∧ metadata (hook c) = [] ∧
  prefetch c = [] ∧ navigation c = [].

(** The configuration after an entry segment: only [completed] and the
    two progress cells may differ, and those cells only while mounted. *)
Definition progress_only (c c' : Config) : Prop :=
  mounted c' = mounted c ∧ phase c' = phase c ∧ prefetch c' = prefetch c ∧
  navigation c' = navigation c ∧ console c' = console c ∧
  uncaught c' = uncaught c ∧
  metadata (hook c') = metadata (hook c) ∧
  currentSnapshot (hook c') = currentSnapshot (hook c) ∧
  currentMetadata (hook c') = currentMetadata (hook c) ∧
  isLoading (hook c') = isLoading (hook c) ∧
  error (hook c') = error (hook c) ∧
  defaultIndex (hook c') = defaultIndex (hook c) ∧
  (mounted c = false → hook c' = hook c).

(** How an entry segment ends: it throws the rejection it was resumed
    with, or goes on waiting for images, or completes. *)
Inductive entry_outcome (c : Config) : Completion EntryState * Config → Prop :=
| entry_throws e : entry_outcome c (Throw e, c)
| entry_waits n : entry_outcome c (Normal (PreloadingImages n), c)
| entry_completes c' : progress_only c c' → entry_outcome c (Normal EntryFulfilled, c').

(** The catch block, in closed form. *)
Definition failed (e : JsValue) (c : Config) : Config :=
  with_phase InitReturned
    (if mounted c
     then snd (setIsLoading false (snd (setError (Some (errorMessage e)) c)))
     else c).

End Hook.

(** ** Concrete stores and schedules used in the examples *)

Module Fixtures.
Import Hook.

(** An entry without satellite images. *)
Definition at_time (t : Z) : SnapshotMetadata :=
  {| timestamp := t; trajectory_ref := "data/" +:+ pretty t +:+ ".json";
     satellite_ir108 := None; satellite_rgb_naturalenhncd := None |}.

(** An entry with an IR108 image over the basin. *)
Definition with_ir108 (t : Z) : SnapshotMetadata :=
  {| timestamp := t; trajectory_ref := "data/" +:+ pretty t +:+ ".json";
     satellite_ir108 :=
       Some {| file := "satellite_images/" +:+ pretty t +:+ "/satellite_ir108.png";
               bbox := (21.1, -41, 103, 21.1)%Q |};
     satellite_rgb_naturalenhncd := None |}.

(** A clock reading in milliseconds, and a store in the same unit: one
    entry three days old, one an hour old. *)
Definition noon : Z := 1700000000000.
Definition threeDaysOld : SnapshotMetadata := at_time (noon - 3 * 24 * 60 * 60 * 1000).
Definition oneHourOld : SnapshotMetadata := with_ir108 (noon - 60 * 60 * 1000).
Definition store : list SnapshotMetadata := [threeDaysOld; oneHourOld].

Definition track (name : string) : LoadedSnapshot := {| payload := name |}.

(** The schedule up to the point where the entry waits for its image. *)
Definition image_pending : list Event :=
  [MetadataSettled (Fulfilled store) noon;
   EntrySnapshotSettled 0 (Fulfilled (track "recent"))].

(** [init] waiting on the prefetch batch, its one entry fetching. *)
Definition prefetching : Config :=
  run start [MetadataSettled (Fulfilled store) noon].

(** The same entry, its snapshot fetched, waiting for its image. *)
Definition preloading : Config :=
  step prefetching (EntrySnapshotSettled 0 (Fulfilled (track "recent"))).

(** The whole initial load gone well. *)
Definition ready : Config :=
  run preloading [EntryImageSettled 0 (Fulfilled tt);
                  DefaultSettled (Fulfilled (track "default"))].

End Fixtures.

(** ** The index generator of [meteo-france-api/fetch_api.ts] *)

Module IndexGenerator.

Inductive ApiDataType :=
| cyclone_list
| cyclone_trajectory.

(** [interface ApiDataMetadata] *)
Record ApiDataMetadata := {
  path : string;
  type : ApiDataType;
  date : string;
  timestamp : Z;
  cyclone_id : option string;
  cyclone_name : option string
}.

(** One [.json] file met by [walkDir]: the components of its path
    relative to [BASE_DIR], its directory entry name, [stats.mtimeMs]
    (a whole number of milliseconds), and the cyclone id and name that
    the [try]/[catch] around the read of a trajectory file ends with. *)
Record JsonFile := {
  parts : list string;
  entryName : string;
  mtimeMs : Z;
  cycloneInfo : option string * option string
}.

(** [s.replace(/c/g, d)] for single characters. *)
Fixpoint replaceAll (c d : Ascii.ascii) (s : string) : string :=
  match s with
  | EmptyString => EmptyString
  | String a s' => String (if Ascii.eqb a c then d else a) (replaceAll c d s')
  end.

(** [a || b] where [a] is a string or [undefined]. *)
Definition orElse (a : option string) (b : string) : string :=
  match a with
  | Some s => if String.eqb s "" then b else s
  | None => b
  end.

(** The template literal [`${x}`] of a string or [undefined]. *)
Definition shown (a : option string) : string := default "undefined" a.

(** The object pushed onto [files] for one file. *)
Definition describe (f : JsonFile) : ApiDataMetadata :=
  let relativePath := String.concat "/" (parts f) in
  let dateStr := parts f !! 0%nat in
  let timeStr := orElse (replaceAll "-"%char ":"%char <$> parts f !! 1%nat) "00:00:00" in
  let filename := orElse (parts f !! 2%nat) (entryName f) in
  let isList := String.eqb filename "cyclone_list.json" in
  {| path := "data/" +:+ replaceAll "\"%char "/"%char relativePath;
     type := if isList then cyclone_list else cyclone_trajectory;
     date := shown dateStr +:+ " " +:+ timeStr;
     timestamp := mtimeMs f / 1000;
     cyclone_id := if isList then None else fst (cycloneInfo f);
     cyclone_name := if isList then None else snd (cycloneInfo f) |}.

(** [getJsonFiles(dir)], given the [.json] files in walk order. *)
Definition getJsonFiles (found : list JsonFile) : list ApiDataMetadata :=
  describe <$> found.

(** [files.sort((a, b) => a.timestamp - b.timestamp)]: a stable sort,
    ascending by timestamp. *)
Fixpoint insertByTimestamp (e : ApiDataMetadata) (sorted : list ApiDataMetadata)
    : list ApiDataMetadata :=
  match sorted with
  | [] => [e]
  | e' :: rest =>
      if timestamp e <? timestamp e' then e :: sorted
      else e' :: insertByTimestamp e rest
  end.

Definition sortByTimestamp (files : list ApiDataMetadata) : list ApiDataMetadata :=
  foldl (fun sorted e => insertByTimestamp e sorted) [] files.

(** [generateJSON()]: the array written to [api_data.json]. *)
Definition generateJSON (found : list JsonFile) : list ApiDataMetadata :=
  sortByTimestamp (getJsonFiles found).

(** An element of [api_data.json] as the viewer reads it: the timestamp
    is the one written, the resource reference is the path, and the
    generator writes no satellite entries. *)
Definition asSnapshotMetadata (e : ApiDataMetadata) : SnapshotMetadata :=
  {| Types.timestamp := timestamp e;
     trajectory_ref := path e;
     satellite_ir108 := None;
     satellite_rgb_naturalenhncd := None |}.

(** The Metadata Store the viewer loads after a run of the generator. *)
Definition metadataStore (found : list JsonFile) : list SnapshotMetadata :=
  asSnapshotMetadata <$> generateJSON found.

(** The prefetch window in the words of the specification: the entries
    whose timestamp is at or after the instant two days before now,
    that instant being expressed in the unit of the store (seconds). *)
Definition recentWindow_spec (nowMs : Z) (store : list SnapshotMetadata)
    : list SnapshotMetadata :=
  List.filter (fun meta => nowMs / 1000 - 2 * 24 * 60 * 60 <=? Types.timestamp meta)
              store.

(** A run of the generator one hour before [Fixtures.noon]
    (2023-11-14 22:13:20 UTC) that wrote one file. *)
Definition oneFile : list JsonFile :=
  [{| parts := ["2023-11-14"; "21-13-20"; "cyclone_list.json"];
      entryName := "cyclone_list.json";
      mtimeMs := Fixtures.noon - 60 * 60 * 1000;
      cycloneInfo := (None, None) |}].

End IndexGenerator.

(** ** The Snapshot Loader *)

Module SnapshotLoader.

(** Modelled from the spec: the cache of the Snapshot Loader of
    [utils/api.ts], which is not among the sources.  What it holds for a
    key: the request in flight, or the snapshot it delivered. *)
Inductive CacheEntry :=
| InFlight (request : nat)
| Loaded (snapshot : LoadedSnapshot).

(** Modelled from the spec: the loader's state, the cache keyed by
    [trajectory_ref], with the network requests issued so far, oldest
    first; a request is named by its position. *)
Record Loader := {
  cache : gmap string CacheEntry;
  requests : list string
}.

(** What a caller holds after [fetchSnapshotData]: the promise of the
    request it shares, or a snapshot at once. *)
Inductive Answer :=
| Pending (request : nat)
| Ready (snapshot : LoadedSnapshot).

(** Modelled from the spec: [fetchSnapshotData] of [utils/api.ts], which
    is not among the sources.  The specification has it memoized by
    [metadata.trajectory_ref], callers of a key whose request is still in
    flight sharing that request, and entries never evicted. *)
Definition fetchSnapshotData (meta : SnapshotMetadata) (l : Loader) : Answer * Loader :=
  match cache l !! trajectory_ref meta with
  | Some (Loaded snapshot) => (Ready snapshot, l)
  | Some (InFlight request) => (Pending request, l)
  | None =>
      let request := length (requests l) in
      (Pending request,
       {| cache := <[trajectory_ref meta := InFlight request]> (cache l);
          requests := requests l ++ [trajectory_ref meta] |})
  end.

(** Modelled from the spec: the response of a request arrives and the
    snapshot is retained for the session under the key of the request. *)
Definition resolve (request : nat) (snapshot : LoadedSnapshot) (l : Loader) : Loader :=
  match requests l !! request with
  | Some key =>
      match cache l !! key with
      | Some (InFlight request') =>
          if decide (request = request')
          then {| cache := <[key := Loaded snapshot]> (cache l);
                  requests := requests l |}
          else l
      | _ => l
      end
  | None => l
  end.

(** What the loader sees between two calls. *)
Inductive Op :=
| Fetch (meta : SnapshotMetadata)
| Resolve (request : nat) (snapshot : LoadedSnapshot).

Definition apply (l : Loader) (op : Op) : Loader :=
  match op with
  | Fetch meta => snd (fetchSnapshotData meta l)
  | Resolve request snapshot => resolve request snapshot l
  end.

(** The network requests issued so far for one key. *)
Definition requestsFor (key : string) (l : Loader) : list string :=
  List.filter (String.eqb key) (requests l).

Definition resolves (request : nat) (op : Op) : bool :=
  match op with
  | Resolve request' _ => bool_decide (request' = request)
  | Fetch _ => false
  end.

(** Two entries that name the same trajectory file, and a loader that
    is busy with another one. *)
Definition bulletin : SnapshotMetadata := Fixtures.at_time 1699996400.
Definition bulletin_again : SnapshotMetadata :=
  {| timestamp := 1699996401; trajectory_ref := trajectory_ref bulletin;
     satellite_ir108 := None; satellite_rgb_naturalenhncd := None |}.
Definition busy : Loader :=
  snd (fetchSnapshotData (Fixtures.at_time 1699990000)
                         {| cache := ∅; requests := [] |}).

End SnapshotLoader.

(** ** The Overlay Geo-Mapper *)

Module GeoMapper.

(** Modelled from the spec: [bboxToLeafletBounds] of [utils/api.ts],
    which is not among the sources; the README of the web app and the
    specification give it as
    [[minLon, minLat, maxLon, maxLat] -> [[minLat, minLon], [maxLat, maxLon]]].
    It only moves its four numbers, whatever their representation. *)
Definition bboxToLeafletBounds {N : Type} (bbox : N * N * N * N) : (N * N) * (N * N) :=
  let '(minLon, minLat, maxLon, maxLat) := bbox in
  ((minLat, minLon), (maxLat, maxLon)).

End GeoMapper.

(** ** Invariants of the hook's configurations *)

Module HookInvariants.
Import DefaultIndex Hook.

(** The entries of the batch whose promise has fulfilled. *)
Definition fulfilledCount (l : list (SnapshotMetadata * EntryState)) : nat :=
  length (List.filter isFulfilled l).

(** What every configuration the hook can reach satisfies: [total] is
    the size of the batch, [completed] counts its fulfilled entries, and
    the locals [data] and [initialIndex] of a suspended [init] are the
    published store and default index; [init] waits on the batch while
    some entry is outstanding and none has failed, and waits for the
    default snapshot only once all have fulfilled. *)
Definition coherent (c : Config) : Prop :=
  total c = length (prefetch c) ∧
  completed c = fulfilledCount (prefetch c) ∧
  match phase c with
  | AwaitMetadata => hook c = initialState ∧ prefetch c = [] ∧ navigation c = []
  | AwaitPrefetch data i =>
      metadata (hook c) = data ∧ defaultIndex (hook c) = i ∧
      (i < length data)%nat ∧
      forallb isFulfilled (prefetch c) = false ∧
      Forall (fun e => e.2 ≠ EntryRejected) (prefetch c)
  | AwaitDefault data i =>
      metadata (hook c) = data ∧ defaultIndex (hook c) = i ∧
      (i < length data)%nat ∧
      forallb isFulfilled (prefetch c) = true
  | InitReturned => True
  end.

(** How an entry segment ends, with what it does to the counters. *)
Inductive entry_exact (c : Config) : Completion EntryState * Config → Prop :=
| exact_throws e : entry_exact c (Throw e, c)
| exact_waits n : entry_exact c (Normal (PreloadingImages (S n)), c)
| exact_completes c' :
    progress_only c c' → completed c' = S (completed c) → total c' = total c →
    (mounted c = true →
     loadingProgress (hook c') = progressOf (S (completed c)) (total c)) →
    entry_exact c (Normal EntryFulfilled, c').

(** How the initial load can have ended. *)
Inductive Outcome :=
| NoData
| LoadFailed (message : string)
| Loaded (snapshot : LoadedSnapshot) (shown : SnapshotMetadata).

(** The cells of a hook whose initial load ended that way. *)
Definition ended (o : Outcome) (h : HookState) : Prop :=
  isLoading h = false ∧
  match o with
  | NoData =>
      metadata h = [] ∧ error h = None ∧
      currentSnapshot h = None ∧ currentMetadata h = None
  | LoadFailed message =>
      error h = Some message ∧
      currentSnapshot h = None ∧ currentMetadata h = None
  | Loaded snapshot shown =>
      error h = None ∧ currentSnapshot h = Some snapshot ∧
      currentMetadata h = Some shown ∧
      metadata h !! defaultIndex h = Some shown
  end.

(** The cells of a mounted hook that nobody navigates: loading and
    blank until [init] returns, then in one of the three end states. *)
Definition settled (c : Config) : Prop :=
  mounted c = true ∧ navigation c = [] ∧
  match phase c with
  | InitReturned => ∃ o, ended o (hook c)
  | _ =>
      isLoading (hook c) = true ∧ error (hook c) = None ∧
      currentSnapshot (hook c) = None ∧ currentMetadata (hook c) = None
  end.

(** What [settled] reads of a configuration. *)
Definition same_view (c c' : Config) : Prop :=
  mounted c' = mounted c ∧ navigation c' = navigation c ∧ phase c' = phase c ∧
  metadata (hook c') = metadata (hook c) ∧
  currentSnapshot (hook c') = currentSnapshot (hook c) ∧
  currentMetadata (hook c') = currentMetadata (hook c) ∧
  isLoading (hook c') = isLoading (hook c) ∧
  error (hook c') = error (hook c) ∧
  defaultIndex (hook c') = defaultIndex (hook c).

(** The effect's cleanup does not run in the schedule. *)
Definition unmounts (ev : Event) : bool :=
  match ev with
  | Unmount => true
  | _ => false
  end.

End HookInvariants.

(** ** [Array.prototype.sort] with a numeric key *)

Module StableSort.

(** [xs.sort((a, b) => key(a) - key(b))]: a stable sort, ascending by
    key; the insertion keeps an element behind those already there with
    the same key. *)
Fixpoint insertBy {A} (key : A → Z) (e : A) (sorted : list A) : list A :=
  match sorted with
  | [] => [e]
  | e' :: rest =>
      if key e <? key e' then e :: sorted
      else e' :: insertBy key e rest
  end.

Definition sortBy {A} (key : A → Z) (xs : list A) : list A :=
  foldl (fun sorted e => insertBy key e sorted) [] xs.

(** Ascending by key. *)
Definition ascending {A} (key : A → Z) (xs : list A) : Prop :=
  StronglySorted (fun a b => key a ≤ key b) xs.

End StableSort.

(** ** The rest of [meteo-france-api/fetch_api.ts] *)

Module ApiFetcher.
Import IndexGenerator.

(** Whether a character occurs in a string. *)
Fixpoint occurs (c : Ascii.ascii) (s : string) : bool :=
  match s with
  | EmptyString => false
  | String a s' => Ascii.eqb a c || occurs c s'
  end.

(** [s.split(sep)[0]]: what comes before the first separator. *)
Fixpoint beforeFirst (sep : Ascii.ascii) (s : string) : string :=
  match s with
  | EmptyString => EmptyString
  | String a s' => if Ascii.eqb a sep then EmptyString else String a (beforeFirst sep s')
  end.

(** [now.toISOString().split('T')[0]] *)
Definition dateStrOf (isoString : string) : string := beforeFirst "T" isoString.

(** [now.toTimeString().split(' ')[0].replace(/:/g, '-')] *)
Definition timeStrOf (timeString : string) : string :=
  replaceAll ":" "-" (beforeFirst " " timeString).

(** [cycloneId.replace(/[/$]/g, '_')] *)
Fixpoint sanitize (cycloneId : string) : string :=
  match cycloneId with
  | EmptyString => EmptyString
  | String a s' =>
      String (if Ascii.eqb a "/" || Ascii.eqb a "$" then "_"%char else a) (sanitize s')
  end.

(** [s.replace(pattern, replacement)] with a string pattern: the first
    occurrence only. *)
Fixpoint replaceFirst (pattern replacement s : string) : string :=
  if String.prefix pattern s
  then replacement +:+ String.substring (String.length pattern)
                         (String.length s - String.length pattern) s
  else match s with
       | EmptyString => EmptyString
       | String a s' => String a (replaceFirst pattern replacement s')
       end.

(** [filename.replace('.json', '').replace(/_/g, '/')], the cyclone id
    taken from the file name when the file cannot be read. *)
Definition fallbackCycloneId (filename : string) : string :=
  replaceAll "_" "/" (replaceFirst ".json" "" filename).

(** The [try]/[catch] of [getJsonFiles] around the read of a trajectory
    file: [Some] with the two fields of the parsed document (either may
    be [undefined]), [None] if reading or parsing threw. *)
Definition readCycloneInfo (content : option (option string * option string))
    (filename : string) : option string * option string :=
  match content with
  | Some info => info
  | None => (Some (fallbackCycloneId filename), None)
  end.

(** The files a run of [main] leaves in its directory
    [BASE_DIR/dateStr/timeStr], as [walkDir] meets them afterwards. *)
Definition listFile (isoString timeString : string) (mtime : Z) : JsonFile :=
  {| parts := [dateStrOf isoString; timeStrOf timeString; "cyclone_list.json"];
     entryName := "cyclone_list.json";
     mtimeMs := mtime;
     cycloneInfo := (None, None) |}.

Definition trajectoryFile (isoString timeString cycloneId : string) (mtime : Z)
    (content : option (option string * option string)) : JsonFile :=
  let name := sanitize cycloneId +:+ ".json" in
  {| parts := [dateStrOf isoString; timeStrOf timeString; name];
     entryName := name;
     mtimeMs := mtime;
     cycloneInfo := readCycloneInfo content name |}.

(** What two runs of [main] a day apart leave under [BASE_DIR], in the
    order a walk by name meets them: the first run wrote its list only;
    the second wrote its list and, two seconds later, one trajectory,
    whose file name comes before [cyclone_list.json]. *)
Definition twoRuns : list JsonFile :=
  [listFile "2023-11-13T17:13:20.000Z" "21:13:20 GMT+0400 (Reunion Time)"
     1699894800412;
   trajectoryFile "2023-11-14T17:13:20.000Z" "21:13:20 GMT+0400 (Reunion Time)"
     "SWI$01/20232024" 1699981202950 (Some (Some "SWI$01/20232024", Some "ALVARO"));
   listFile "2023-11-14T17:13:20.000Z" "21:13:20 GMT+0400 (Reunion Time)"
     1699981200731].

End ApiFetcher.

(** * Properties *)

Module DefaultIndexFacts.
Import DefaultIndex.

Lemma scanned_step horizon seen meta initialIndex minDiff :
  scanned horizon seen initialIndex minDiff →
  let diff := distance horizon meta in
  if lt_diff diff minDiff
  then scanned horizon (seen ++ [meta]) (length seen) (Finite diff)
  else scanned horizon (seen ++ [meta]) initialIndex minDiff.
Proof.
  intros Hinv diff. destruct minDiff as [d|]; simpl.
  - destruct Hinv as ([m0 [Hm0 Hd]] & Hmin & Hfirst).
    destruct (Z.ltb_spec diff d) as [Hlt|Hge]; simpl.
    + split; [|split].
      * exists meta. split; [|done].
        rewrite lookup_app_r by lia. by rewrite Nat.sub_diag.
      * intros j m Hj. apply lookup_app_Some in Hj as [Hj|[_ Hj]].
        -- specialize (Hmin _ _ Hj). lia.
        -- apply list_lookup_singleton_Some in Hj as [_ <-]. subst diff. lia.
      * intros j m Hj Hlt'. rewrite lookup_app_l in Hj by lia.
        specialize (Hmin _ _ Hj). lia.
    + split; [|split].
      * exists m0. split; [|done]. apply lookup_app_l_Some. done.
      * intros j m Hj. apply lookup_app_Some in Hj as [Hj|[_ Hj]].
        -- by apply (Hmin j).
        -- apply list_lookup_singleton_Some in Hj as [_ <-]. subst diff. lia.
      * intros j m Hj Hlt'. apply lookup_lt_Some in Hm0.
        rewrite lookup_app_l in Hj by lia. by apply (Hfirst j).
  - destruct Hinv as [-> ->]. simpl. split; [|split].
    + exists meta. done.
    + intros j m Hj. apply list_lookup_singleton_Some in Hj as [_ <-].
      subst diff. lia.
    + intros j m Hj Hlt'. lia.
Qed.

Lemma scanFrom_scanned horizon rest : ∀ seen initialIndex minDiff,
  scanned horizon seen initialIndex minDiff →
  let r := scanFrom rest horizon (length seen) initialIndex minDiff in
  scanned horizon (seen ++ rest) (fst r) (snd r).
Proof.
  induction rest as [|meta rest IH]; intros seen initialIndex minDiff Hinv; simpl.
  - by rewrite app_nil_r.
  - pose proof (scanned_step horizon seen meta _ _ Hinv) as Hstep. simpl in Hstep.
    replace (seen ++ meta :: rest) with ((seen ++ [meta]) ++ rest)
      by (by rewrite <- app_assoc).
    replace (S (length seen)) with (length (seen ++ [meta]))
      by (rewrite length_app; simpl; lia).
    destruct (lt_diff (distance horizon meta) minDiff); by apply IH.
Qed.

Lemma scanFrom_finite horizon rest : ∀ i initialIndex minDiff,
  rest ≠ [] ∨ minDiff ≠ Infinity →
  snd (scanFrom rest horizon i initialIndex minDiff) ≠ Infinity.
Proof.
  induction rest as [|meta rest IH]; intros i initialIndex minDiff Hne; simpl.
  - by destruct Hne.
  - destruct (lt_diff _ _) eqn:Hlt; apply IH; right; [done|].
    destruct Hne as [_|Hne]; [|done].
    intros ->. by simpl in Hlt.
Qed.

End DefaultIndexFacts.

Module HookFacts.
Import DefaultIndex Hook Fixtures.

(** *** The bounds check of [loadSnapshot] *)

Lemma loadSnapshot_call_out_of_range c index :
  index < 0 ∨ Z.of_nat (length (metadata (hook c))) ≤ index →
  loadSnapshot_call index c = (Normal None, c).
Proof.
  intros Hout. js_unfold.
  destruct (Z.ltb_spec index 0) as [?|Hnonneg]; [done|].
  destruct (Z.leb_spec (Z.of_nat (length (metadata (hook c)))) index); [done|lia].
Qed.

Lemma loadSnapshot_call_in_range c index :
  0 ≤ index < Z.of_nat (length (metadata (hook c))) →
  ∃ meta, metadata (hook c) !! Z.to_nat index = Some meta ∧
          loadSnapshot_call index c =
            (Normal (Some meta), snd (setCurrentMetadata (Some meta) c)).
Proof.
  intros [Hlo Hhi].
  destruct (lookup_lt_is_Some_2 (metadata (hook c)) (Z.to_nat index)) as [meta Hmeta];
    [lia|].
  exists meta. split; [done|]. js_unfold.
  destruct (Z.ltb_spec index 0); [lia|].
  destruct (Z.leb_spec (Z.of_nat (length (metadata (hook c)))) index); [lia|].
  simpl. by rewrite Hmeta.
Qed.

(** *** While [init] waits for the index *)

(** [init] never comes back to its first suspension point. *)
Lemma resume_init_not_AwaitMetadata r now c :
  phase (resume_init (init_after_metadata r now) c) ≠ AwaitMetadata.
Proof.
  destruct r as [data|e]; js_cases c; try done.
  destruct (length data =? 0)%nat; js_simpl; [done|].
  destruct (0 <? length _)%nat; js_simpl; done.
Qed.

Lemma start_pristine : pristine start.
Proof. by repeat split. Qed.

Lemma step_pristine c ev :
  phase c = AwaitMetadata → pristine c →
  phase (step c ev) = AwaitMetadata →
  step c ev = c ∨ step c ev = with_mounted false c.
Proof.
  intros Hph (Hhook & Hpre & Hnav & Hcon & Hunc) Hph'.
  destruct ev as [|r now|k r|k r|r|index|k r]; simpl in *.
  - by right.
  - rewrite Hph in Hph'. by apply resume_init_not_AwaitMetadata in Hph'.
  - rewrite Hpre. by left.
  - rewrite Hpre. by left.
  - rewrite Hph. by left.
  - rewrite loadSnapshot_call_out_of_range; [by left|].
    rewrite Hhook. simpl. lia.
  - rewrite Hnav. by left.
Qed.

Lemma run_snoc c evs ev : run c (evs ++ [ev]) = step (run c evs) ev.
Proof. unfold run. by rewrite foldl_app. Qed.

Lemma step_phase_AwaitMetadata c ev :
  phase (step c ev) = AwaitMetadata → phase c = AwaitMetadata.
Proof.
  step_cases ev; intros; congruence.
Qed.

(** Once the index has been stored, no later event replaces it or the
    default index. *)
Lemma step_keeps_store c ev :
  phase c ≠ AwaitMetadata →
  metadata (hook (step c ev)) = metadata (hook c) ∧
  defaultIndex (hook (step c ev)) = defaultIndex (hook c).
Proof.
  step_cases ev; intros; done || congruence.
Qed.

Lemma run_keeps_store evs : ∀ c,
  phase c ≠ AwaitMetadata →
  phase (run c evs) ≠ AwaitMetadata ∧
  metadata (hook (run c evs)) = metadata (hook c) ∧
  defaultIndex (hook (run c evs)) = defaultIndex (hook c).
Proof.
  induction evs as [|ev evs IH]; intros c Hph; [done|].
  change (run c (ev :: evs)) with (run (step c ev) evs).
  assert (phase (step c ev) ≠ AwaitMetadata) as Hph'
    by (intros Heq; by apply step_phase_AwaitMetadata in Heq).
  destruct (IH _ Hph') as (? & -> & ->).
  split; [done|]. by apply step_keeps_store.
Qed.

Lemma run_pristine evs :
  phase (run start evs) = AwaitMetadata → pristine (run start evs).
Proof.
  induction evs as [|ev evs IH] using rev_ind; [intros _; apply start_pristine|].
  rewrite run_snoc. intros Hph.
  pose proof (step_phase_AwaitMetadata _ _ Hph) as Hph0.
  specialize (IH Hph0).
  destruct (step_pristine _ ev Hph0 IH Hph) as [->| ->]; [done|].
  destruct IH as (? & ? & ? & ? & ?). by repeat split.
Qed.

(** *** The default index *)

Lemma findDefaultIndex_first_nearest (data : list SnapshotMetadata) (horizon : Z) :
  data ≠ [] →
  ∃ chosen,
    data !! findDefaultIndex data horizon = Some chosen ∧
    (∀ j meta, data !! j = Some meta →
       distance horizon chosen ≤ distance horizon meta) ∧
    (∀ j meta, data !! j = Some meta → (j < findDefaultIndex data horizon)%nat →
       distance horizon chosen < distance horizon meta).
Proof.
  intros Hne. unfold findDefaultIndex.
  pose proof (DefaultIndexFacts.scanFrom_scanned horizon data [] 0%nat Infinity) as Hscan.
  pose proof (DefaultIndexFacts.scanFrom_finite horizon data 0 0 Infinity (or_introl Hne))
    as Hfin.
  simpl in Hscan. specialize (Hscan (conj eq_refl eq_refl)).
  destruct (scanFrom data horizon 0 0 Infinity) as [i [d|]]; simpl in *; [|done].
  destruct Hscan as ([chosen [Hi Hd]] & Hmin & Hfirst).
  exists chosen. rewrite Hd. eauto.
Qed.

Lemma init_publishes_defaultIndex c data now :
  phase c = AwaitMetadata → mounted c = true → data ≠ [] →
  defaultIndex (hook (step c (MetadataSettled (Fulfilled data) now))) =
    findDefaultIndex data (twoDaysAgo now).
Proof.
  intros Hph Hm Hne. simpl. rewrite Hph.
  destruct data as [|meta data]; [done|].
  unfold resume_init. js_unfold. js_simpl.
  destruct (0 <? _)%nat; js_simpl; done.
Qed.

(** C1: for every non-empty metadata array, the default index that
    initialization computes and publishes is the index whose timestamp is
    nearest to the horizon [now - 2 days]; among the indices at the
    minimal distance it is the lowest, every earlier index being
    strictly farther.  No later event replaces it. *)
Theorem defaultIndex_nearest_to_horizon
    (data : list SnapshotMetadata) (now : Z) (evs : list Event) :
  data ≠ [] →
  let horizon := now - 2 * 24 * 60 * 60 * 1000 in
  let c := step start (MetadataSettled (Fulfilled data) now) in
  let i := defaultIndex (hook c) in
  i = findDefaultIndex data horizon ∧
  defaultIndex (hook (run c evs)) = i ∧
  ∃ chosen,
    data !! i = Some chosen ∧
    (∀ j meta, data !! j = Some meta →
       Z.abs (timestamp chosen - horizon) ≤ Z.abs (timestamp meta - horizon)) ∧
    (∀ j meta, data !! j = Some meta → (j < i)%nat →
       Z.abs (timestamp chosen - horizon) < Z.abs (timestamp meta - horizon)).
Proof.
  intros Hne horizon c i.
  assert (i = findDefaultIndex data horizon) as Hi
    by (by apply init_publishes_defaultIndex).
  split; [done|]. split.
  - apply run_keeps_store. apply resume_init_not_AwaitMetadata.
  - rewrite Hi. by apply findDefaultIndex_first_nearest.
Qed.

(** The example of section 8 of the specification. *)
Example defaultIndex_tie_goes_to_earlier :
  findDefaultIndex [at_time 100; at_time 200; at_time 300] 250 = 1%nat ∧
  snapshotsToPrefetch [at_time 100; at_time 200; at_time 300] 250 = [at_time 300].
Proof. split; reflexivity. Qed.

Lemma defaultIndex_nearest_to_horizon_witness :
  [at_time 100; at_time 200; at_time 300] ≠ [] ∧
  defaultIndex (hook (step start
    (MetadataSettled (Fulfilled [at_time 100; at_time 200; at_time 300])
                     172800250))) = 1%nat.
Proof.
  split; [done|].
  destruct (defaultIndex_nearest_to_horizon
              [at_time 100; at_time 200; at_time 300] 172800250 []) as [Hi _];
    [done|].
  rewrite Hi. reflexivity.
Defined.

(** *** The empty store *)

Lemma step_idle c ev :
  idle c → step c ev = c ∨ step c ev = with_mounted false c.
Proof.
  intros (Hph & Hmeta & Hpre & Hnav).
  destruct ev as [|r now|k r|k r|r|index|k r]; simpl.
  - by right.
  - rewrite Hph. by left.
  - rewrite Hpre. by left.
  - rewrite Hpre. by left.
  - rewrite Hph. by left.
  - rewrite loadSnapshot_call_out_of_range; [by left|].
    rewrite Hmeta. simpl. lia.
  - rewrite Hnav. by left.
Qed.

Lemma run_idle evs : ∀ c, idle c → idle (run c evs) ∧ hook (run c evs) = hook c.
Proof.
  induction evs as [|ev evs IH]; intros c Hidle; [done|].
  change (run c (ev :: evs)) with (run (step c ev) evs).
  destruct (step_idle c ev Hidle) as [-> | ->]; [by apply IH|].
  destruct (IH (with_mounted false c)) as [? ->]; [|done].
  destruct Hidle as (? & ? & ? & ?). by repeat split.
Qed.

Lemma empty_store_step c now :
  phase c = AwaitMetadata → pristine c →
  let c' := step c (MetadataSettled (Fulfilled []) now) in
  idle c' ∧ uncaught c' = [] ∧
  hook c' = if mounted c
            then {| metadata := []; currentSnapshot := None; currentMetadata := None;
                    isLoading := false;
                    loadingMessage := loadingMessage initialState;
                    loadingProgress := 0; error := None; defaultIndex := 0 |}
            else initialState.
Proof.
  intros Hph (Hhook & Hpre & Hnav & Hcon & Hunc). simpl. rewrite Hph.
  unfold idle, resume_init. js_unfold. simpl.
  destruct (mounted c) eqn:Hm; js_simpl; rewrite ?Hhook; done.
Qed.

(** C10: when the Metadata Store is empty, initialization returns before
    the default-index computation and the published [defaultIndex] keeps
    its initial value 0, which is no index of the empty store; a call of
    [loadSnapshot] on that index, then or after any later events, changes
    nothing. *)
Theorem empty_store_leaves_defaultIndex_zero (evs evs' : list Event) (now : Z) :
  phase (run start evs) = AwaitMetadata →
  let c := step (run start evs) (MetadataSettled (Fulfilled []) now) in
  phase c = InitReturned ∧
  defaultIndex (hook c) = 0%nat ∧
  metadata (hook c) !! defaultIndex (hook c) = None ∧
  defaultIndex (hook (run c evs')) = 0%nat ∧
  step (run c evs') (LoadSnapshot (Z.of_nat (defaultIndex (hook (run c evs')))))
    = run c evs'.
Proof.
  intros Hph c.
  destruct (empty_store_step _ now Hph (run_pristine _ Hph)) as (Hidle & _ & Hhook).
  fold c in Hidle, Hhook.
  destruct (run_idle evs' c Hidle) as [(_ & Hmeta' & _) Hhook'].
  assert (defaultIndex (hook c) = 0%nat) as Hzero
    by (rewrite Hhook; by destruct (mounted (run start evs))).
  destruct Hidle as (? & Hmeta & _).
  rewrite Hhook', Hzero, Hmeta. repeat split; try done.
  simpl. rewrite loadSnapshot_call_out_of_range; [done|].
  rewrite Hmeta'. simpl. lia.
Qed.

Lemma empty_store_leaves_defaultIndex_zero_witness :
  phase (run start [LoadSnapshot 0]) = AwaitMetadata ∧
  mounted (run start [LoadSnapshot 0]) = true ∧
  let c := step (run start [LoadSnapshot 0])
                (MetadataSettled (Fulfilled []) 1700000000000) in
  isLoading (hook c) = false ∧
  phase c = InitReturned ∧
  defaultIndex (hook c) = 0%nat ∧
  metadata (hook c) !! defaultIndex (hook c) = None ∧
  defaultIndex (hook (run c [LoadSnapshot 0; Unmount; LoadSnapshot 0])) = 0%nat ∧
  step (run c [LoadSnapshot 0; Unmount; LoadSnapshot 0])
       (LoadSnapshot (Z.of_nat (defaultIndex
          (hook (run c [LoadSnapshot 0; Unmount; LoadSnapshot 0])))))
    = run c [LoadSnapshot 0; Unmount; LoadSnapshot 0].
Proof.
  assert (phase (run start [LoadSnapshot 0]) = AwaitMetadata) as Hph by reflexivity.
  split; [exact Hph|]. split; [reflexivity|]. split; [reflexivity|].
  exact (empty_store_leaves_defaultIndex_zero [LoadSnapshot 0]
           [LoadSnapshot 0; Unmount; LoadSnapshot 0] 1700000000000 Hph).
Defined.

(** C6, as amended: when the index arrives empty while the component is
    still mounted, initialization returns normally with [isLoading] false,
    [currentSnapshot] still null and [error] still null, and the cells
    stay so whatever happens later. *)
Theorem empty_store_ends_loading (evs evs' : list Event) (now : Z) :
  phase (run start evs) = AwaitMetadata →
  mounted (run start evs) = true →
  let c := step (run start evs) (MetadataSettled (Fulfilled []) now) in
  phase c = InitReturned ∧ uncaught c = [] ∧
  isLoading (hook c) = false ∧
  currentSnapshot (hook c) = None ∧
  error (hook c) = None ∧
  hook (run c evs') = hook c.
Proof.
  intros Hph Hm c.
  destruct (empty_store_step _ now Hph (run_pristine _ Hph)) as (Hidle & Hunc & Hhook).
  fold c in Hidle, Hunc, Hhook. rewrite Hm in Hhook.
  destruct (run_idle evs' c Hidle) as [_ Hhook'].
  destruct Hidle as (? & _). rewrite Hhook', Hhook. by repeat split.
Qed.

Lemma empty_store_ends_loading_witness :
  phase (run start []) = AwaitMetadata ∧ mounted (run start []) = true ∧
  isLoading (hook (step (run start [])
                        (MetadataSettled (Fulfilled []) 1700000000000))) = false.
Proof.
  split; [reflexivity|]. split; [reflexivity|].
  apply (empty_store_ends_loading [] [] 1700000000000); reflexivity.
Defined.

(** C6 as stated fails when the effect's cleanup has run before
    [loadMetadata()] resolves: [init] returns at [if (!mounted) return]
    and [isLoading] keeps its initial value. *)
Lemma empty_store_after_unmount_keeps_loading :
  let c := run start [Unmount; MetadataSettled (Fulfilled []) 1700000000000] in
  phase c = InitReturned ∧ metadata (hook c) = [] ∧ isLoading (hook c) = true.
Proof. by repeat split. Qed.

(** *** [loadSnapshot] *)

(** C7: for every index out of range ([index < 0] or
    [index >= metadata.length], so in particular -1 and the length
    itself), [loadSnapshot(index)] returns at its bounds check: it throws
    nothing and the whole configuration, all hook cells included, is
    unchanged. *)
Theorem loadSnapshot_out_of_range_is_noop (c : Config) (index : Z) :
  index < 0 ∨ Z.of_nat (length (metadata (hook c))) ≤ index →
  loadSnapshot_call index c = (Normal None, c) ∧
  step c (LoadSnapshot index) = c.
Proof.
  intros Hout. pose proof (loadSnapshot_call_out_of_range c index Hout) as Hcall.
  split; [done|]. simpl. by rewrite Hcall.
Qed.

Lemma loadSnapshot_out_of_range_is_noop_witness :
  (-1 < 0 ∧ step ready (LoadSnapshot (-1)) = ready) ∧
  (Z.of_nat (length (metadata (hook ready))) ≤ 2 ∧
   step ready (LoadSnapshot 2) = ready).
Proof.
  split; (split; [vm_compute; congruence|]).
  - apply (loadSnapshot_out_of_range_is_noop ready (-1)). left. lia.
  - apply (loadSnapshot_out_of_range_is_noop ready 2). right. vm_compute. congruence.
Defined.

Lemma navigation_rejected c k meta e :
  navigation c !! k = Some (Some meta) →
  let c' := step c (NavigationSettled k (Rejected e)) in
  hook c' = hook c ∧ console c' = console c ++ [e] ∧ uncaught c' = uncaught c ∧
  navigation c' = <[k := None]> (navigation c).
Proof. intros Hk. simpl. rewrite Hk. js_unfold. simpl. done. Qed.

Lemma navigation_fulfilled c k meta snapshot :
  navigation c !! k = Some (Some meta) →
  let c' := step c (NavigationSettled k (Fulfilled snapshot)) in
  currentSnapshot (hook c') = Some snapshot ∧ uncaught c' = uncaught c.
Proof. intros Hk. simpl. rewrite Hk. js_unfold. simpl. done. Qed.

(** C8: for every index in range, [loadSnapshot(index)] sets
    [currentMetadata] to [metadata[index]] at once, before the fetch, and
    leaves [currentSnapshot] alone; if the fetch it then waits for
    rejects, at whatever later moment, the error goes to the console,
    nothing is thrown further, and the hook cells, [currentSnapshot]
    among them, are what they were just before the rejection. *)
Theorem loadSnapshot_failure_is_swallowed
    (c : Config) (index : Z) (evs : list Event) (e : JsValue) :
  0 ≤ index < Z.of_nat (length (metadata (hook c))) →
  let k := length (navigation c) in
  let called := step c (LoadSnapshot index) in
  let later := run called evs in
  navigation later !! k = navigation called !! k →
  let failed := step later (NavigationSettled k (Rejected e)) in
  currentMetadata (hook called) = metadata (hook c) !! Z.to_nat index ∧
  is_Some (metadata (hook c) !! Z.to_nat index) ∧
  currentSnapshot (hook called) = currentSnapshot (hook c) ∧
  navigation called !! k = Some (metadata (hook c) !! Z.to_nat index) ∧
  hook failed = hook later ∧
  console failed = console later ++ [e] ∧
  uncaught failed = uncaught later.
Proof.
  intros Hin k called later Hpending failed.
  destruct (loadSnapshot_call_in_range c index Hin) as (meta & Hmeta & Hcall).
  assert (called = with_navigation (navigation c ++ [Some meta])
                     (snd (setCurrentMetadata (Some meta) c))) as Hcalled.
  { unfold called. simpl. rewrite Hcall. reflexivity. }
  assert (navigation called !! k = Some (Some meta)) as Hk.
  { rewrite Hcalled. simpl. rewrite lookup_app_r by done. by rewrite Nat.sub_diag. }
  rewrite Hk in Hpending.
  destruct (navigation_rejected later k meta e Hpending) as (Hh & Hc & Hu & _).
  rewrite Hmeta, Hk. repeat split; try done; by rewrite Hcalled.
Qed.

Lemma loadSnapshot_failure_is_swallowed_witness :
  (0 ≤ 1 < Z.of_nat (length (metadata (hook ready)))) ∧
  navigation (run (step ready (LoadSnapshot 1)) [Unmount]) !! length (navigation ready)
    = navigation (step ready (LoadSnapshot 1)) !! length (navigation ready) ∧
  currentSnapshot (hook (step (run (step ready (LoadSnapshot 1)) [Unmount])
     (NavigationSettled (length (navigation ready))
        (Rejected (ErrorObject "Failed to fetch"))))) = Some (track "default").
Proof.
  assert (0 ≤ 1 < Z.of_nat (length (metadata (hook ready)))) as Hin
    by (vm_compute; split; congruence).
  assert (navigation (run (step ready (LoadSnapshot 1)) [Unmount])
            !! length (navigation ready)
          = navigation (step ready (LoadSnapshot 1)) !! length (navigation ready))
    as Hpending by reflexivity.
  split; [done|]. split; [done|].
  destruct (loadSnapshot_failure_is_swallowed ready 1 [Unmount]
              (ErrorObject "Failed to fetch") Hin Hpending)
    as (_ & _ & _ & _ & Hhook & _).
  rewrite Hhook. reflexivity.
Defined.

(** *** What the segments change *)

Lemma progress_only_refl c : progress_only c c.
Proof. by repeat split. Qed.

Lemma entry_complete_frame c :
  ∃ c', entry_complete c = (Normal EntryFulfilled, c') ∧ progress_only c c'.
Proof.
  js_unfold. simpl. destruct (mounted c) eqn:Hm; eexists; (split; [reflexivity|]);
    repeat split; simpl; congruence.
Qed.

Lemma entry_after_snapshot_outcome meta r c :
  entry_outcome c (entry_after_snapshot meta r c).
Proof.
  destruct r as [snapshot|e]; [|apply entry_throws].
  unfold entry_after_snapshot, bind, await, ret.
  destruct (length (imagePromises meta)); [|apply entry_waits].
  destruct (entry_complete_frame c) as (c' & -> & Hframe). by apply entry_completes.
Qed.

Lemma entry_after_image_outcome pending r c :
  entry_outcome c (entry_after_image pending r c).
Proof.
  destruct r as [[]|e]; [|apply entry_throws].
  unfold entry_after_image, bind, await, ret.
  destruct pending as [|[|n]]; [| |apply entry_waits];
    destruct (entry_complete_frame c) as (c' & -> & Hframe); by apply entry_completes.
Qed.

Lemma resume_init_throw e c : resume_init (throw e) c = failed e c.
Proof. unfold failed. js_cases c; done. Qed.

Lemma resume_init_metadata_rejected e now c :
  resume_init (init_after_metadata (Rejected e) now) c = failed e c.
Proof. unfold failed. js_cases c; done. Qed.

Lemma resume_init_default_rejected e data i c :
  resume_init (init_after_default (Rejected e) data i) c = failed e c.
Proof. unfold failed. js_cases c; done. Qed.

Lemma resume_init_after_prefetch data i c :
  resume_init (init_after_prefetch data i) c =
    if mounted c
    then with_phase (AwaitDefault data i)
           (snd (setLoadingProgress 100 (snd (setLoadingMessage "Prêt !" c))))
    else with_phase InitReturned c.
Proof. js_cases c; done. Qed.

Lemma resume_init_default_fulfilled snapshot data i c :
  resume_init (init_after_default (Fulfilled snapshot) data i) c =
    with_phase InitReturned
      (if mounted c
       then snd (setIsLoading false
              (snd (setCurrentMetadata (data !! i)
                 (snd (setCurrentSnapshot (Some snapshot) c)))))
       else c).
Proof. js_cases c; done. Qed.

(** The two navigation events, in closed form. *)
Lemma step_LoadSnapshot c index :
  step c (LoadSnapshot index) = c ∨
  ∃ meta, step c (LoadSnapshot index) =
            with_navigation (navigation c ++ [Some meta])
              (snd (setCurrentMetadata (Some meta) c)).
Proof.
  simpl. js_unfold. simpl.
  destruct (_ || _); [by left|].
  destruct (metadata (hook c) !! Z.to_nat index) as [meta|]; [|by left].
  right. by exists meta.
Qed.

Lemma step_NavigationSettled c k r :
  step c (NavigationSettled k r) = c ∨
  (∃ snapshot, step c (NavigationSettled k r) =
     with_navigation (<[k := None]> (navigation c))
       (snd (setCurrentSnapshot (Some snapshot) c))) ∨
  (∃ e, step c (NavigationSettled k r) =
     with_navigation (<[k := None]> (navigation c)) (snd (console_error e c))).
Proof.
  simpl. destruct (navigation c !! k) as [[meta|]|]; try by left.
  right. destruct r as [snapshot|e]; js_unfold; simpl; [left|right]; eauto.
Qed.

(** What [resume_entry] makes of an outcome: the entry is recorded, and
    an [init] that waits on the batch may be resumed, normally or in its
    catch block. *)
Lemma resume_entry_cases k meta segment c :
  entry_outcome c (segment c) →
  ∃ c1 l, progress_only c c1 ∧
    let c2 := with_prefetch l c1 in
    resume_entry k meta segment c = c2 ∨
    (∃ data i, phase c = AwaitPrefetch data i ∧
       resume_entry k meta segment c = resume_init (init_after_prefetch data i) c2) ∨
    (∃ data i e, phase c = AwaitPrefetch data i ∧
       resume_entry k meta segment c = failed e c2).
Proof.
  intros Hout. unfold resume_entry.
  inversion Hout as [e Heq|n Heq|c' Hframe Heq]; simpl.
  - exists c, (<[k := (meta, EntryRejected)]> (prefetch c)).
    split; [apply progress_only_refl|]. simpl.
    destruct (phase c) as [|data i| |] eqn:Hph; try by left.
    right. right. exists data, i, e. by rewrite resume_init_throw.
  - exists c, (<[k := (meta, PreloadingImages n)]> (prefetch c)).
    split; [apply progress_only_refl|]. simpl.
    destruct (phase c) as [|data i| |] eqn:Hph; try by left.
    destruct (forallb _ _); [|by left]. right. left. by exists data, i.
  - exists c', (<[k := (meta, EntryFulfilled)]> (prefetch c')).
    split; [done|]. simpl.
    destruct Hframe as (_ & Hph' & _). rewrite Hph'.
    destruct (phase c) as [|data i| |] eqn:Hph; try by left.
    destruct (forallb _ _); [|by left]. right. left. by exists data, i.
Qed.

Lemma resume_entry_throw k meta segment c e data i :
  segment c = (Throw e, c) → phase c = AwaitPrefetch data i →
  resume_entry k meta segment c =
    failed e (with_prefetch (<[k := (meta, EntryRejected)]> (prefetch c)) c).
Proof.
  intros Hseg Hph. unfold resume_entry. rewrite Hseg. simpl. rewrite Hph.
  apply resume_init_throw.
Qed.

(** *** The liveness flag *)

(** Every continuation of [init] and of its prefetch entries checks
    [mounted] before it touches a cell. *)
Lemma init_continuations_guarded c ev :
  mounted c = false → navigates ev = false → hook (step c ev) = hook c.
Proof.
  intros Hm Hnav.
  assert (∀ k meta segment, entry_outcome c (segment c) →
            hook (resume_entry k meta segment c) = hook c) as Hentry.
  { intros k meta segment Hout.
    destruct (resume_entry_cases k meta segment c Hout)
      as (c1 & l & Hframe & [-> | [(data & i & _ & ->) | (data & i & e & _ & ->)]]);
      destruct Hframe as (Hm1 & Hrest); rewrite Hm in Hm1;
      rewrite ?resume_init_after_prefetch; unfold failed; simpl; rewrite ?Hm1;
      simpl; by apply Hrest. }
  destruct ev as [|r now|k r|k r|r|index|k r]; try done; simpl.
  - destruct (phase c); try done. destruct r; js_cases c; done.
  - destruct (prefetch c !! k) as [[meta []]|]; try done.
    apply Hentry, entry_after_snapshot_outcome.
  - destruct (prefetch c !! k) as [[meta [|pending| |]]|]; try done.
    apply Hentry, entry_after_image_outcome.
  - destruct (phase c); try done. destruct r; js_cases c; done.
Qed.

(** C9 on the code: the continuation of [loadSnapshot] has no such
    check.  The store is loaded, the UI asks for the snapshot at index 1,
    the component is unmounted, and the fetch then resolves:
    [setCurrentSnapshot] runs all the same and replaces the snapshot. *)
Theorem loadSnapshot_continuation_unguarded :
  let gone := run ready [LoadSnapshot 1; Unmount] in
  let late := step gone (NavigationSettled 0 (Fulfilled (track "recent"))) in
  mounted gone = false ∧
  currentSnapshot (hook gone) = Some (track "default") ∧
  currentSnapshot (hook late) = Some (track "recent") ∧
  hook late ≠ hook gone.
Proof. repeat split; vm_compute; congruence. Qed.

(** *** Failures of the initial load *)

(** [init] only moves forward. *)
Lemma step_rank c ev : (rank (phase c) ≤ rank (phase (step c ev)))%nat.
Proof.
  assert (∀ k meta segment, entry_outcome c (segment c) →
            (rank (phase c) ≤ rank (phase (resume_entry k meta segment c)))%nat)
    as Hentry.
  { intros k meta segment Hout.
    destruct (resume_entry_cases k meta segment c Hout)
      as (c1 & l & Hframe & [-> | [(data & i & Hph & ->) | (data & i & e & Hph & ->)]]);
      destruct Hframe as (_ & Hph1 & _); simpl.
    - by rewrite Hph1.
    - rewrite resume_init_after_prefetch, Hph.
      destruct (mounted _); simpl; lia.
    - rewrite Hph. simpl. lia. }
  destruct ev as [|r now|k r|k r|r|index|k r];
    [simpl..|destruct (step_LoadSnapshot c index) as [-> | [meta ->]]
            |destruct (step_NavigationSettled c k r) as [-> | [[? ->] | [? ->]]]];
    try done.
  - destruct (phase c) eqn:Hph; rewrite ?Hph; simpl; try done. lia.
  - destruct (prefetch c !! k) as [[meta []]|]; try done.
    apply Hentry, entry_after_snapshot_outcome.
  - destruct (prefetch c !! k) as [[meta [|pending| |]]|]; try done.
    apply Hentry, entry_after_image_outcome.
  - destruct (phase c) eqn:Hph; rewrite ?Hph; simpl; try done.
    destruct r; [rewrite resume_init_default_fulfilled
                |rewrite resume_init_default_rejected]; simpl; lia.
Qed.

(** Only the last segment of [init] and the continuation of
    [loadSnapshot] write [currentSnapshot]. *)
Lemma step_keeps_currentSnapshot c ev :
  navigates ev = false → (rank (phase c) ≠ 2)%nat →
  currentSnapshot (hook (step c ev)) = currentSnapshot (hook c).
Proof.
  intros Hnav Hph.
  assert (∀ k meta segment, entry_outcome c (segment c) →
            currentSnapshot (hook (resume_entry k meta segment c))
              = currentSnapshot (hook c)) as Hentry.
  { intros k meta segment Hout.
    destruct (resume_entry_cases k meta segment c Hout)
      as (c1 & l & Hframe & [-> | [(data & i & _ & ->) | (data & i & e & _ & ->)]]);
      destruct Hframe as (_ & _ & _ & _ & _ & _ & _ & Hsnap & _);
      rewrite ?resume_init_after_prefetch; unfold failed; simpl;
      try destruct (mounted c1); simpl; done. }
  destruct ev as [|r now|k r|k r|r|index|k r]; try done; simpl.
  - destruct (phase c); try done. destruct r as [data|e]; js_cases c; try done.
    destruct (length data =? 0)%nat; js_simpl; [done|].
    destruct (0 <? length _)%nat; js_simpl; done.
  - destruct (prefetch c !! k) as [[meta []]|]; try done.
    apply Hentry, entry_after_snapshot_outcome.
  - destruct (prefetch c !! k) as [[meta [|pending| |]]|]; try done.
    apply Hentry, entry_after_image_outcome.
  - destruct (phase c); try done.
Qed.

(** Once [init] has returned, nothing writes [error] or [isLoading]. *)
Lemma step_after_return c ev :
  phase c = InitReturned →
  error (hook (step c ev)) = error (hook c) ∧
  isLoading (hook (step c ev)) = isLoading (hook c).
Proof.
  intros Hph.
  assert (∀ k meta segment, entry_outcome c (segment c) →
            error (hook (resume_entry k meta segment c)) = error (hook c) ∧
            isLoading (hook (resume_entry k meta segment c)) = isLoading (hook c))
    as Hentry.
  { intros k meta segment Hout.
    destruct (resume_entry_cases k meta segment c Hout)
      as (c1 & l & Hframe & [-> | [(data & i & Hph' & _) | (data & i & e & Hph' & _)]]);
      [|congruence..].
    destruct Hframe as (_ & _ & _ & _ & _ & _ & _ & _ & _ & Hload & Herr & _).
    done. }
  destruct ev as [|r now|k r|k r|r|index|k r];
    [simpl..|destruct (step_LoadSnapshot c index) as [-> | [meta ->]]
            |destruct (step_NavigationSettled c k r) as [-> | [[? ->] | [? ->]]]];
    try done.
  - by rewrite Hph.
  - destruct (prefetch c !! k) as [[meta []]|]; try done.
    apply Hentry, entry_after_snapshot_outcome.
  - destruct (prefetch c !! k) as [[meta [|pending| |]]|]; try done.
    apply Hentry, entry_after_image_outcome.
  - by rewrite Hph.
Qed.

Lemma run_rank evs : ∀ c, (rank (phase c) ≤ rank (phase (run c evs)))%nat.
Proof.
  induction evs as [|ev evs IH]; intros c; [done|].
  change (run c (ev :: evs)) with (run (step c ev) evs).
  pose proof (step_rank c ev). specialize (IH (step c ev)). lia.
Qed.

Lemma run_unpublished evs :
  Forall (fun ev => navigates ev = false) evs →
  (rank (phase (run start evs)) ≤ 1)%nat →
  currentSnapshot (hook (run start evs)) = None.
Proof.
  induction evs as [|ev evs IH] using rev_ind; [done|].
  rewrite Forall_app, Forall_singleton. intros [Hevs Hev].
  rewrite run_snoc. intros Hrank.
  pose proof (step_rank (run start evs) ev) as Hmono.
  rewrite step_keeps_currentSnapshot; [|done|lia].
  apply IH; [done|lia].
Qed.

Lemma run_after_return evs : ∀ c,
  phase c = InitReturned →
  phase (run c evs) = InitReturned ∧
  error (hook (run c evs)) = error (hook c) ∧
  isLoading (hook (run c evs)) = isLoading (hook c) ∧
  (Forall (fun ev => navigates ev = false) evs →
   currentSnapshot (hook (run c evs)) = currentSnapshot (hook c)).
Proof.
  induction evs as [|ev evs IH]; intros c Hph; [done|].
  change (run c (ev :: evs)) with (run (step c ev) evs).
  assert (phase (step c ev) = InitReturned) as Hph'.
  { pose proof (step_rank c ev) as Hmono. rewrite Hph in Hmono.
    destruct (phase (step c ev)); simpl in Hmono; done || lia. }
  destruct (IH _ Hph') as (? & -> & -> & Hsnap).
  destruct (step_after_return c ev Hph) as [-> ->].
  repeat split; try done.
  intros [Hev Hevs]%Forall_cons. rewrite Hsnap by done.
  apply step_keeps_currentSnapshot; [done|]. by rewrite Hph.
Qed.

(** The step that handles a failure of the initial load. *)
Lemma init_failure_step c ev e :
  init_failure c ev e →
  ∃ c2, step c ev = failed e c2 ∧ hook c2 = hook c ∧
        mounted c2 = mounted c ∧ uncaught c2 = uncaught c.
Proof.
  intros [e' now Hph | data i k meta e' Hph Hk | data i k meta pending e' Hph Hk];
    simpl.
  - rewrite Hph, resume_init_metadata_rejected. by exists c.
  - rewrite Hk. erewrite resume_entry_throw; [|reflexivity|done].
    by eexists.
  - rewrite Hk. erewrite resume_entry_throw; [|reflexivity|done].
    by eexists.
Qed.

(** C3, as amended: if, while the component is still mounted,
    [loadMetadata()] rejects, or the snapshot fetch or an image preload of
    any one prefetch entry rejects while [init] waits on the batch, [init]
    ends in its catch block: [error] holds the message of the error (or
    'Erreur inconnue'), [isLoading] is false, both for good, and the
    initial load publishes no current snapshot, then or later: where the
    UI does not navigate, [currentSnapshot] is and stays null.  One
    failing entry is enough, whatever the other entries do afterwards. *)
Theorem init_failure_enters_error_state
    (evs evs' : list Event) (ev : Event) (e : JsValue) :
  mounted (run start evs) = true →
  init_failure (run start evs) ev e →
  let c := step (run start evs) ev in
  phase c = InitReturned ∧
  error (hook c) = Some (errorMessage e) ∧
  isLoading (hook c) = false ∧
  currentSnapshot (hook c) = currentSnapshot (hook (run start evs)) ∧
  uncaught c = uncaught (run start evs) ∧
  error (hook (run c evs')) = Some (errorMessage e) ∧
  isLoading (hook (run c evs')) = false ∧
  (Forall (fun ev => navigates ev = false) (evs ++ evs') →
   currentSnapshot (hook (run c evs')) = None).
Proof.
  intros Hm Hfail c.
  destruct (init_failure_step _ _ _ Hfail) as (c2 & Hstep & Hhook & Hm2 & Hunc).
  assert (phase c = InitReturned ∧ error (hook c) = Some (errorMessage e) ∧
          isLoading (hook c) = false ∧
          currentSnapshot (hook c) = currentSnapshot (hook (run start evs)) ∧
          uncaught c = uncaught (run start evs)) as (Hph & Herr & Hload & Hsnap & Hu).
  { unfold c. rewrite Hstep. unfold failed. rewrite Hm2, Hm. simpl.
    rewrite Hhook, Hunc. done. }
  destruct (run_after_return evs' c Hph) as (_ & Herr' & Hload' & Hsnap').
  rewrite Herr', Hload', Herr, Hload. repeat split; try done.
  intros [Hevs Hevs']%Forall_app. rewrite Hsnap', Hsnap by done.
  apply run_unpublished; [done|].
  destruct Hfail as [? ? -> | ? ? ? ? ? -> | ? ? ? ? ? ? ->]; simpl; lia.
Qed.

Lemma init_failure_enters_error_state_witness :
  mounted (run start image_pending) = true ∧
  init_failure (run start image_pending)
    (EntryImageSettled 0 (Rejected (ErrorObject "Failed to load image")))
    (ErrorObject "Failed to load image") ∧
  error (hook (step (run start image_pending)
     (EntryImageSettled 0 (Rejected (ErrorObject "Failed to load image")))))
    = Some "Failed to load image" ∧
  (Forall (fun ev => navigates ev = false) (image_pending ++ [Unmount]) ∧
   currentSnapshot (hook (run (step (run start image_pending)
     (EntryImageSettled 0 (Rejected (ErrorObject "Failed to load image"))))
     [Unmount])) = None).
Proof.
  assert (mounted (run start image_pending) = true) as Hm
    by (vm_compute; reflexivity).
  assert (init_failure (run start image_pending)
            (EntryImageSettled 0 (Rejected (ErrorObject "Failed to load image")))
            (ErrorObject "Failed to load image")) as Hfail
    by (eapply entry_image_fails; vm_compute; reflexivity).
  assert (Forall (fun ev => navigates ev = false) (image_pending ++ [Unmount]))
    as Hquiet by (repeat constructor).
  pose proof (init_failure_enters_error_state image_pending [Unmount] _ _ Hm Hfail)
    as (_ & Herr & _ & _ & _ & _ & _ & Hnone).
  split; [exact Hm|]. split; [exact Hfail|]. split; [exact Herr|].
  split; [exact Hquiet|]. exact (Hnone Hquiet).
Defined.

(** C3 as stated fails when the effect's cleanup has run before the
    rejection arrives: the catch block returns at [if (!mounted) return],
    no error is recorded and [isLoading] stays true. *)
Lemma init_failure_after_unmount_is_silent :
  let c := run start [Unmount;
                      MetadataSettled (Rejected (ErrorObject "Failed to fetch")) noon] in
  phase c = InitReturned ∧ error (hook c) = None ∧ isLoading (hook c) = true.
Proof. by repeat split. Qed.

End HookFacts.

Module IndexGeneratorFacts.
Import DefaultIndex Hook IndexGenerator.

Lemma insertByTimestamp_elem e x sorted :
  x ∈ insertByTimestamp e sorted ↔ x = e ∨ x ∈ sorted.
Proof.
  induction sorted as [|e' rest IH]; simpl.
  - rewrite list_elem_of_singleton, elem_of_nil. tauto.
  - destruct (_ <? _); rewrite !elem_of_cons; [done|]. rewrite IH. tauto.
Qed.

Lemma sortByTimestamp_elem x files : x ∈ sortByTimestamp files ↔ x ∈ files.
Proof.
  unfold sortByTimestamp.
  assert (∀ acc, x ∈ foldl (fun sorted e => insertByTimestamp e sorted) acc files
                 ↔ x ∈ acc ∨ x ∈ files) as Hgen.
  { induction files as [|e files IH]; intros acc; simpl.
    - rewrite elem_of_nil. tauto.
    - rewrite IH, insertByTimestamp_elem, elem_of_cons. tauto. }
  rewrite Hgen, elem_of_nil. tauto.
Qed.

(** Every timestamp of a generated store is a file time in seconds. *)
Lemma metadataStore_timestamps found meta :
  meta ∈ metadataStore found →
  ∃ f, f ∈ found ∧ Types.timestamp meta = mtimeMs f / 1000.
Proof.
  unfold metadataStore, generateJSON, getJsonFiles.
  intros (e & -> & He)%list_elem_of_fmap.
  rewrite sortByTimestamp_elem in He.
  apply list_elem_of_fmap in He as (f & -> & Hf). by exists f.
Qed.

Lemma filter_none {A} (f : A → bool) (l : list A) :
  Forall (fun x => f x = false) l → List.filter f l = [].
Proof. induction 1 as [|x l Hx _ IH]; simpl; [done|]. by rewrite Hx. Qed.

(** The filter of [init] compares those seconds with a horizon in
    milliseconds: from 3 January 1970 on, no file written up to now
    passes it. *)
Lemma generated_store_never_prefetched found now :
  172972973 ≤ now →
  Forall (fun f => mtimeMs f ≤ now) found →
  snapshotsToPrefetch (metadataStore found) (twoDaysAgo now) = [].
Proof.
  intros Hnow Hfiles. unfold snapshotsToPrefetch.
  apply filter_none, Forall_forall. intros meta Hmeta.
  destruct (metadataStore_timestamps _ _ Hmeta) as (f & Hf & ->).
  rewrite Forall_forall in Hfiles. specialize (Hfiles f Hf). simpl in Hfiles.
  apply Z.leb_gt. unfold twoDaysAgo.
  pose proof (Z.div_le_mono _ _ 1000 ltac:(lia) Hfiles).
  assert (now / 1000 < now - 172800000)
    by (apply Z.div_lt_upper_bound; lia).
  lia.
Qed.

(** C2 on the code: the generator ran an hour ago and wrote one file, so
    the store holds one entry from the last two days, stamped in seconds.
    The window in the words of the specification contains it; the filter
    of [init], whose horizon is in milliseconds, selects nothing, and
    [init] goes on without prefetching. *)
Theorem generated_recent_entry_not_prefetched :
  let store := metadataStore oneFile in
  let horizon := twoDaysAgo Fixtures.noon in
  Types.timestamp <$> store = [1699996400] ∧
  horizon = 1699827200000 ∧
  recentWindow_spec Fixtures.noon store = store ∧
  snapshotsToPrefetch store horizon = [] ∧
  prefetch (step start (MetadataSettled (Fulfilled store) Fixtures.noon)) = [].
Proof. repeat split; vm_compute; reflexivity. Qed.

End IndexGeneratorFacts.

Module SnapshotLoaderFacts.
Import SnapshotLoader.

Lemma requestsFor_snoc key key' l c :
  requestsFor key {| cache := c; requests := requests l ++ [key'] |} =
    requestsFor key l ++ (if String.eqb key key' then [key'] else []).
Proof. unfold requestsFor. simpl. by rewrite List.filter_app. Qed.

(** While the request of a key is in flight, whatever else the loader
    does short of resolving that request leaves the key's cache entry
    and the requests issued for the key as they are. *)
Lemma in_flight_stable key request l op :
  cache l !! key = Some (InFlight request) →
  resolves request op = false →
  cache (apply l op) !! key = Some (InFlight request) ∧
  requestsFor key (apply l op) = requestsFor key l.
Proof.
  intros Hkey Hop. destruct op as [meta|request' snapshot]; simpl.
  - unfold fetchSnapshotData. destruct (decide (trajectory_ref meta = key)) as [->|Hne].
    + by rewrite Hkey.
    + destruct (cache l !! trajectory_ref meta) as [[?|?]|]; simpl; try done.
      rewrite lookup_insert_ne by done. split; [done|].
      rewrite requestsFor_snoc.
      destruct (String.eqb_spec key (trajectory_ref meta)); [congruence|].
      by rewrite app_nil_r.
  - simpl in Hop. apply bool_decide_eq_false in Hop.
    unfold resolve.
    destruct (requests l !! request') as [key'|]; [|done].
    destruct (cache l !! key') as [[request''|?]|] eqn:Hkey'; try done.
    destruct (decide (request' = request'')) as [<-|]; [|done]. simpl.
    split; [|done].
    rewrite lookup_insert_ne; [done|]. intros ->. congruence.
Qed.

Lemma in_flight_stable_run key request ops : ∀ l,
  cache l !! key = Some (InFlight request) →
  Forall (fun op => resolves request op = false) ops →
  cache (foldl apply l ops) !! key = Some (InFlight request) ∧
  requestsFor key (foldl apply l ops) = requestsFor key l.
Proof.
  induction ops as [|op ops IH]; intros l Hkey Hops; [done|].
  apply Forall_cons in Hops as [Hop Hops]. simpl.
  destruct (in_flight_stable key request l op Hkey Hop) as [Hkey' <-].
  by apply IH.
Qed.

(** C5: two calls of the loader for metadata with the same
    [trajectory_ref], the second made before the request of the first has
    resolved (whatever other fetches and responses come in between),
    issue exactly one network request for that key, and both callers hold
    the promise of that one request. *)
Theorem concurrent_fetches_share_one_request
    (l : Loader) (meta1 meta2 : SnapshotMetadata) (between : list Op) :
  trajectory_ref meta1 = trajectory_ref meta2 →
  cache l !! trajectory_ref meta1 = None →
  let request := length (requests l) in
  Forall (fun op => resolves request op = false) between →
  let first := fetchSnapshotData meta1 l in
  let second := fetchSnapshotData meta2 (foldl apply (snd first) between) in
  fst first = Pending request ∧
  fst second = Pending request ∧
  requests (snd first) = requests l ++ [trajectory_ref meta1] ∧
  requestsFor (trajectory_ref meta1) (snd second) =
    requestsFor (trajectory_ref meta1) l ++ [trajectory_ref meta1] ∧
  snd second = foldl apply (snd first) between.
Proof.
  intros Href Hfresh request Hbetween first second.
  assert (first = (Pending request,
                   {| cache := <[trajectory_ref meta1 := InFlight request]> (cache l);
                      requests := requests l ++ [trajectory_ref meta1] |})) as Hfirst.
  { unfold first, fetchSnapshotData. by rewrite Hfresh. }
  destruct (in_flight_stable_run (trajectory_ref meta1) request between (snd first))
    as [Hkey Hreqs]; [|done|].
  { rewrite Hfirst. simpl. apply lookup_insert_eq. }
  assert (second = (Pending request, foldl apply (snd first) between)) as Hsecond.
  { unfold second, fetchSnapshotData. by rewrite <- Href, Hkey. }
  rewrite Hsecond. simpl. rewrite Hreqs. rewrite Hfirst. simpl.
  repeat split. rewrite requestsFor_snoc. by rewrite String.eqb_refl.
Qed.

Lemma concurrent_fetches_share_one_request_witness :
  trajectory_ref bulletin = trajectory_ref bulletin_again ∧
  cache busy !! trajectory_ref bulletin = None ∧
  Forall (fun op => resolves 1 op = false)
         [Resolve 0 (Fixtures.track "older"); Fetch (Fixtures.at_time 1699990000)] ∧
  fst (fetchSnapshotData bulletin_again
         (foldl apply (snd (fetchSnapshotData bulletin busy))
            [Resolve 0 (Fixtures.track "older"); Fetch (Fixtures.at_time 1699990000)]))
    = Pending 1.
Proof.
  assert (cache busy !! trajectory_ref bulletin = None) as Hfresh
    by (vm_compute; reflexivity).
  assert (Forall (fun op => resolves (length (requests busy)) op = false)
            [Resolve 0 (Fixtures.track "older"); Fetch (Fixtures.at_time 1699990000)])
    as Hbetween by (repeat constructor).
  split; [reflexivity|]. split; [exact Hfresh|]. split; [exact Hbetween|].
  exact (proj1 (proj2 (concurrent_fetches_share_one_request
                         busy bulletin bulletin_again _ eq_refl Hfresh Hbetween))).
Defined.

End SnapshotLoaderFacts.

Module GeoMapperFacts.
Import GeoMapper.

(** C4: [bboxToLeafletBounds] sends [[minLon, minLat, maxLon, maxLat]] to
    [[[minLat, minLon], [maxLat, maxLon]]] for all four numbers whatever
    their values (nothing is clamped or checked: degrees far out of range
    come back as they went in), and on the basin box
    [[21.1, -41, 103, 21.1]] it returns [[[-41, 21.1], [21.1, 103]]]. *)
Theorem bboxToLeafletBounds_swaps_axes :
  (∀ (N : Type) (minLon minLat maxLon maxLat : N),
     bboxToLeafletBounds (minLon, minLat, maxLon, maxLat)
       = ((minLat, minLon), (maxLat, maxLon))) ∧
  bboxToLeafletBounds (21.1, -41, 103, 21.1)%Q = ((-41, 21.1), (21.1, 103))%Q ∧
  bboxToLeafletBounds (-500, 1000, 720, -1000)%Q = ((1000, -500), (-1000, 720))%Q.
Proof. repeat split. Qed.

End GeoMapperFacts.

Module HookInvariantFacts.
Import DefaultIndex Hook HookInvariants HookFacts.

(** [entry_complete], with its counter. *)
Lemma entry_complete_exact c :
  ∃ c', entry_complete c = (Normal EntryFulfilled, c') ∧
        progress_only c c' ∧
        completed c' = S (completed c) ∧ total c' = total c ∧
        (mounted c = true →
         loadingProgress (hook c') = progressOf (S (completed c)) (total c)).
Proof.
  js_unfold. simpl. destruct (mounted c) eqn:Hm; eexists; (split; [reflexivity|]);
    repeat split; simpl; congruence.
Qed.

Lemma entry_after_snapshot_exact meta r c :
  entry_exact c (entry_after_snapshot meta r c).
Proof.
  destruct r as [snapshot|e]; [|apply exact_throws].
  unfold entry_after_snapshot, bind, await, ret.
  destruct (length (imagePromises meta)); [|apply exact_waits].
  destruct (entry_complete_exact c) as (c' & -> & ? & ? & ? & ?).
  by apply exact_completes.
Qed.

Lemma entry_after_image_exact pending r c :
  entry_exact c (entry_after_image pending r c).
Proof.
  destruct r as [[]|e]; [|apply exact_throws].
  unfold entry_after_image, bind, await, ret.
  destruct pending as [|[|n]]; [| |apply exact_waits];
    destruct (entry_complete_exact c) as (c' & -> & ? & ? & ? & ?);
    by apply exact_completes.
Qed.

(** Counting fulfilled entries under an update in place. *)
Lemma fulfilledCount_insert l k old new :
  l !! k = Some old → isFulfilled old = false →
  fulfilledCount (<[k := new]> l) =
    (fulfilledCount l + (if isFulfilled new then 1 else 0))%nat.
Proof.
  unfold fulfilledCount. revert k.
  induction l as [|x l IH]; intros [|k] Hk Hold; simpl in *; try done.
  - injection Hk as ->. rewrite Hold. destruct (isFulfilled new); simpl; lia.
  - specialize (IH k Hk Hold).
    destruct (isFulfilled x); simpl; rewrite IH; lia.
Qed.

Lemma forallb_insert_unfulfilled l k new :
  (k < length l)%nat → isFulfilled new = false →
  forallb isFulfilled (<[k := new]> l) = false.
Proof.
  revert k. induction l as [|x l IH]; intros [|k] Hk Hnew; simpl in *; try lia.
  - by rewrite Hnew.
  - rewrite IH by (done || lia). apply andb_false_r.
Qed.

Lemma forallb_lookup l k e :
  forallb isFulfilled l = true → l !! k = Some e → isFulfilled e = true.
Proof.
  intros Hall Hk. rewrite forallb_forall in Hall. apply Hall.
  apply list_elem_of_In, list_elem_of_lookup. eauto.
Qed.

Lemma start_coherent : coherent start.
Proof. by repeat split. Qed.

Lemma resume_entry_coherent k meta old segment c :
  coherent c →
  prefetch c !! k = Some old → isFulfilled old = false →
  entry_exact c (segment c) →
  coherent (resume_entry k meta segment c).
Proof.
  intros (Htotal & Hcompleted & Hphase) Hk Hold Hexact.
  assert (k < length (prefetch c))%nat as Hlt by (by eapply lookup_lt_Some).
  unfold resume_entry.
  inversion Hexact as [e Heq|n Heq|c' Hframe Hdone Htotal' Hprogress Heq]; simpl.
  - assert (coherent' : total c = length (<[k:=(meta, EntryRejected)]> (prefetch c)) ∧
            completed c = fulfilledCount (<[k:=(meta, EntryRejected)]> (prefetch c))).
    { rewrite length_insert, (fulfilledCount_insert _ _ _ _ Hk Hold). simpl.
      split; [done|lia]. }
    destruct coherent' as [? ?].
    destruct (phase c) as [|data i|data i|] eqn:Hph; simpl; rewrite ?Hph.
    + destruct Hphase as (_ & Hnil & _). by rewrite Hnil in Hk.
    + rewrite resume_init_throw. unfold failed, coherent. simpl.
      destruct (mounted c); simpl; done.
    + destruct Hphase as (_ & _ & _ & Hall).
      pose proof (forallb_lookup _ _ _ Hall Hk). congruence.
    + unfold coherent. simpl. by rewrite Hph.
  - assert (coherent' :
      total c = length (<[k:=(meta, PreloadingImages (S n))]> (prefetch c)) ∧
      completed c = fulfilledCount (<[k:=(meta, PreloadingImages (S n))]> (prefetch c))).
    { rewrite length_insert, (fulfilledCount_insert _ _ _ _ Hk Hold). simpl.
      split; [done|lia]. }
    destruct coherent' as [? ?].
    destruct (phase c) as [|data i|data i|] eqn:Hph; simpl; rewrite ?Hph.
    + destruct Hphase as (_ & Hnil & _). by rewrite Hnil in Hk.
    + rewrite forallb_insert_unfulfilled by done.
      unfold coherent. simpl. rewrite Hph.
      destruct Hphase as (? & ? & ? & _ & Hrej).
      repeat split; try done.
      * by apply forallb_insert_unfulfilled.
      * apply Forall_insert; done.
    + destruct Hphase as (_ & _ & _ & Hall).
      pose proof (forallb_lookup _ _ _ Hall Hk). congruence.
    + unfold coherent. simpl. by rewrite Hph.
  - destruct Hframe as (Hm & Hph' & Hpre & _ & _ & _ & Hmeta & _ & _ & _ & _ & Hdef & _).
    rewrite Hpre, Hph'.
    assert (coherent' :
      total c' = length (<[k:=(meta, EntryFulfilled)]> (prefetch c)) ∧
      completed c' = fulfilledCount (<[k:=(meta, EntryFulfilled)]> (prefetch c))).
    { rewrite length_insert, (fulfilledCount_insert _ _ _ _ Hk Hold). simpl.
      split; [congruence|lia]. }
    destruct coherent' as [? ?].
    destruct (phase c) as [|data i|data i|] eqn:Hph; simpl.
    + destruct Hphase as (_ & Hnil & _). by rewrite Hnil in Hk.
    + destruct Hphase as (? & ? & ? & _ & Hrej).
      destruct (forallb isFulfilled _) eqn:Hall.
      * rewrite resume_init_after_prefetch. simpl.
        destruct (mounted c'); unfold coherent; simpl; repeat split; try done;
          congruence.
      * unfold coherent. simpl. rewrite Hph'.
        repeat split; try done; try congruence.
        apply Forall_insert; done.
    + destruct Hphase as (_ & _ & _ & Hall).
      pose proof (forallb_lookup _ _ _ Hall Hk). congruence.
    + unfold coherent. simpl. by rewrite Hph'.
Qed.

Lemma fresh_batch (l : list SnapshotMetadata) :
  let batch := (fun meta => (meta, FetchingSnapshot)) <$> l in
  length batch = length l ∧ fulfilledCount batch = 0%nat ∧
  Forall (fun e => e.2 ≠ EntryRejected) batch ∧
  (forallb isFulfilled batch = negb (0 <? length l)%nat).
Proof.
  simpl. split; [apply length_fmap|].
  induction l as [|meta l (IH1 & IH2 & IH3)]; simpl; [by repeat split|].
  repeat split; try done. by constructor.
Qed.

Lemma findDefaultIndex_in_range data horizon :
  data ≠ [] → (findDefaultIndex data horizon < length data)%nat.
Proof.
  intros Hne.
  destruct (findDefaultIndex_first_nearest data horizon Hne) as (chosen & Hi & _).
  by eapply lookup_lt_Some.
Qed.

Lemma step_coherent c ev : coherent c → coherent (step c ev).
Proof.
  intros Hc. pose proof Hc as (Htotal & Hcompleted & Hphase).
  assert (phase c = AwaitMetadata → navigates ev = true → step c ev = c) as Hquiet.
  { intros Hph Hnav. rewrite Hph in Hphase.
    destruct Hphase as (Hhook & _ & Hnone).
    destruct ev as [| | | | |index|k r]; try done; simpl.
    - rewrite loadSnapshot_call_out_of_range; [done|].
      rewrite Hhook. simpl. lia.
    - by rewrite Hnone. }
  destruct ev as [|r now|k r|k r|r|index|k r]; try done.
  - simpl. destruct (phase c) eqn:Hph; try done.
    destruct Hphase as (Hhook & Hpre & Hnav).
    rewrite Hpre in Htotal, Hcompleted. simpl in Htotal, Hcompleted.
    destruct r as [data|e]; js_cases c; unfold coherent; simpl;
      rewrite ?Hpre; try done.
    destruct (length data =? 0)%nat eqn:Hempty; js_simpl; rewrite ?Hpre; [done|].
    assert (data ≠ []) as Hne by (intros ->; done).
    pose proof (fresh_batch (snapshotsToPrefetch data (twoDaysAgo now)))
      as (Hlen & Hcount & Hrej & Hall). simpl in Hlen, Hcount, Hrej, Hall.
    pose proof (findDefaultIndex_in_range data (twoDaysAgo now) Hne) as Hrange.
    destruct (0 <? length _)%nat eqn:Hpos; js_simpl; rewrite ?Hpre.
    + rewrite Hlen, Hcount, Hall. by repeat split.
    + apply Nat.ltb_ge in Hpos. repeat split; try done. simpl. lia.
  - simpl. destruct (prefetch c !! k) as [[meta []]|] eqn:Hk; try done.
    eapply resume_entry_coherent; eauto using entry_after_snapshot_exact.
  - simpl. destruct (prefetch c !! k) as [[meta [|pending| |]]|] eqn:Hk; try done.
    eapply resume_entry_coherent; eauto using entry_after_image_exact.
  - simpl. destruct (phase c) eqn:Hph; try done.
    destruct r; [rewrite resume_init_default_fulfilled
                |rewrite resume_init_default_rejected];
      unfold failed, coherent; destruct (mounted c); simpl; done.
  - destruct (phase c) eqn:Hph; [by rewrite Hquiet|..];
      destruct (step_LoadSnapshot c index) as [-> | [meta ->]]; try done;
      unfold coherent; simpl; by rewrite Hph.
  - destruct (phase c) eqn:Hph; [by rewrite Hquiet|..];
      destruct (step_NavigationSettled c k r) as [-> | [[? ->] | [? ->]]]; try done;
      unfold coherent; simpl; by rewrite Hph.
Qed.

(** Every configuration the hook reaches is coherent. *)
Lemma run_coherent evs : ∀ c, coherent c → coherent (run c evs).
Proof.
  induction evs as [|ev evs IH]; intros c Hc; [done|].
  apply (IH (step c ev)). by apply step_coherent.
Qed.

Lemma fulfilledCount_le l : (fulfilledCount l ≤ length l)%nat.
Proof.
  unfold fulfilledCount. induction l as [|x l IH]; simpl; [done|].
  destruct (isFulfilled x); simpl; lia.
Qed.

Lemma forallb_fulfilledCount l :
  forallb isFulfilled l = true ↔ fulfilledCount l = length l.
Proof.
  unfold fulfilledCount. induction l as [|x l IH]; simpl; [done|].
  pose proof (fulfilledCount_le l) as Hle. unfold fulfilledCount in Hle.
  destruct (isFulfilled x); simpl.
  - rewrite IH. split; [congruence|lia].
  - split; [done|lia].
Qed.

(** X1: in every configuration the hook can reach, [total] is the number
    of entries of the prefetch batch and [completed] is the number of them
    whose promise has fulfilled; so [completed] never exceeds [total], and
    the two are equal exactly when every entry has fulfilled. *)
Theorem completed_counts_fulfilled_entries (evs : list Event) :
  let c := run start evs in
  total c = length (prefetch c) ∧
  completed c = fulfilledCount (prefetch c) ∧
  (completed c ≤ total c)%nat ∧
  (completed c = total c ↔ forallb isFulfilled (prefetch c) = true).
Proof.
  intros c.
  destruct (run_coherent evs start start_coherent) as (Htotal & Hcompleted & _).
  fold c in Htotal, Hcompleted. rewrite Htotal, Hcompleted.
  repeat split; try done.
  - apply fulfilledCount_le.
  - by intros ?%forallb_fulfilledCount.
  - by intros ?%forallb_fulfilledCount.
Qed.

(** X2: the join on the prefetch batch.  While [init] waits on the
    [Promise.all], some entry is still outstanding and none has rejected;
    [init] goes on to fetch the default snapshot only when every entry of
    the batch has fulfilled, and then the store it works on is the
    published one and its default index is in range. *)
Theorem default_fetch_waits_for_whole_batch
    (evs : list Event) (data : list SnapshotMetadata) (i : nat) :
  let c := run start evs in
  (phase c = AwaitPrefetch data i →
     (completed c < total c)%nat ∧
     Forall (fun e => e.2 ≠ EntryRejected) (prefetch c)) ∧
  (phase c = AwaitDefault data i →
     completed c = total c ∧
     Forall (fun e => e.2 = EntryFulfilled) (prefetch c) ∧
     metadata (hook c) = data ∧ defaultIndex (hook c) = i ∧
     is_Some (data !! i)).
Proof.
  intros c.
  destruct (run_coherent evs start start_coherent) as (Htotal & Hcompleted & Hphase).
  fold c in Htotal, Hcompleted, Hphase.
  pose proof (fulfilledCount_le (prefetch c)) as Hle.
  pose proof (forallb_fulfilledCount (prefetch c)) as Hall.
  split; intros Hph; rewrite Hph in Hphase.
  - destruct Hphase as (_ & _ & _ & Hsome & Hrej). split; [|done].
    rewrite Htotal, Hcompleted.
    destruct (decide (fulfilledCount (prefetch c) = length (prefetch c))) as [Heq|];
      [|lia].
    apply Hall in Heq. congruence.
  - destruct Hphase as (? & ? & ? & Hevery).
    repeat split; try done.
    + rewrite Htotal, Hcompleted. by apply Hall.
    + apply Forall_forall. intros [meta st] Hin.
      rewrite forallb_forall in Hevery.
      specialize (Hevery _ (proj1 (list_elem_of_In _ _) Hin)).
      unfold isFulfilled in Hevery. simpl in *. by destruct st.
    + by apply lookup_lt_is_Some_2.
Qed.

Lemma default_fetch_waits_for_whole_batch_witness :
  phase (run start Fixtures.image_pending)
    = AwaitPrefetch Fixtures.store 0 ∧
  (completed (run start Fixtures.image_pending)
     < total (run start Fixtures.image_pending))%nat ∧
  phase (run start (Fixtures.image_pending ++ [EntryImageSettled 0 (Fulfilled tt)]))
    = AwaitDefault Fixtures.store 0 ∧
  completed (run start (Fixtures.image_pending ++ [EntryImageSettled 0 (Fulfilled tt)]))
    = total (run start (Fixtures.image_pending ++ [EntryImageSettled 0 (Fulfilled tt)])).
Proof.
  assert (phase (run start Fixtures.image_pending)
            = AwaitPrefetch Fixtures.store 0) as H1 by (vm_compute; reflexivity).
  assert (phase (run start (Fixtures.image_pending ++
                              [EntryImageSettled 0 (Fulfilled tt)]))
            = AwaitDefault Fixtures.store 0) as H2 by (vm_compute; reflexivity).
  split; [exact H1|]. split.
  - exact (proj1 (proj1 (default_fetch_waits_for_whole_batch
                           Fixtures.image_pending Fixtures.store 0) H1)).
  - split; [exact H2|].
    exact (proj1 (proj2 (default_fetch_waits_for_whole_batch
                           (Fixtures.image_pending ++
                              [EntryImageSettled 0 (Fulfilled tt)])
                           Fixtures.store 0) H2)).
Defined.

(** The flag is cleared by the cleanup of the effect and by nothing else,
    and nothing sets it again. *)
Lemma step_mounted c ev :
  mounted (step c ev) = if unmounts ev then false else mounted c.
Proof.
  assert (∀ k meta segment, entry_outcome c (segment c) →
            mounted (resume_entry k meta segment c) = mounted c) as Hentry.
  { intros k meta segment Hout.
    destruct (resume_entry_cases k meta segment c Hout)
      as (c1 & l & Hframe & [-> | [(data & i & _ & ->) | (data & i & e & _ & ->)]]);
      destruct Hframe as (Hm1 & _); rewrite <- Hm1;
      rewrite ?resume_init_after_prefetch; unfold failed; simpl;
      destruct (mounted c1) eqn:?; simpl; done. }
  destruct ev as [|r now|k r|k r|r|index|k r];
    [simpl..|destruct (step_LoadSnapshot c index) as [-> | [meta ->]]
            |destruct (step_NavigationSettled c k r) as [-> | [[? ->] | [? ->]]]];
    try done.
  - destruct (phase c); try done. destruct r as [data|e]; js_cases c; try done.
    destruct (length data =? 0)%nat; js_simpl; [done|].
    destruct (0 <? length _)%nat; js_simpl; done.
  - destruct (prefetch c !! k) as [[meta []]|]; try done.
    apply Hentry, entry_after_snapshot_outcome.
  - destruct (prefetch c !! k) as [[meta [|pending| |]]|]; try done.
    apply Hentry, entry_after_image_outcome.
  - destruct (phase c); try done.
    destruct r; [rewrite resume_init_default_fulfilled
                |rewrite resume_init_default_rejected];
      unfold failed; simpl; destruct (mounted c) eqn:?; done.
Qed.

(** X3: once the component is unmounted, nothing that [init] or its
    prefetch entries still do changes any cell of the hook, however many
    of their promises settle afterwards and in whatever order. *)
Theorem init_is_silent_after_unmount (c : Config) (evs : list Event) :
  mounted c = false →
  Forall (fun ev => navigates ev = false) evs →
  hook (run c evs) = hook c ∧ mounted (run c evs) = false.
Proof.
  revert c. induction evs as [|ev evs IH]; intros c Hm Hevs; [done|].
  apply Forall_cons in Hevs as [Hev Hevs].
  change (run c (ev :: evs)) with (run (step c ev) evs).
  destruct (IH (step c ev)) as [-> ->]; [|done|].
  - rewrite step_mounted, Hm. by destruct (unmounts ev).
  - split; [|done]. by apply init_continuations_guarded.
Qed.

Lemma init_is_silent_after_unmount_witness :
  mounted (step Fixtures.preloading Unmount) = false ∧
  Forall (fun ev => navigates ev = false)
         [EntryImageSettled 0 (Fulfilled tt);
          DefaultSettled (Fulfilled (Fixtures.track "default"))] ∧
  hook (run (step Fixtures.preloading Unmount)
          [EntryImageSettled 0 (Fulfilled tt);
           DefaultSettled (Fulfilled (Fixtures.track "default"))])
    = hook (step Fixtures.preloading Unmount).
Proof.
  assert (mounted (step Fixtures.preloading Unmount) = false) as Hm by reflexivity.
  assert (Forall (fun ev => navigates ev = false)
            [EntryImageSettled 0 (Fulfilled tt);
             DefaultSettled (Fulfilled (Fixtures.track "default"))]) as Hevs
    by (repeat constructor).
  split; [exact Hm|]. split; [exact Hevs|].
  exact (proj1 (init_is_silent_after_unmount _ _ Hm Hevs)).
Defined.

(** X4: when the fetch of the default snapshot fulfils on a mounted
    component, [init] publishes that snapshot together with the entry of
    the published store at the published [defaultIndex], which exists,
    and ends the loading state without touching [error]. *)
Theorem default_snapshot_published
    (evs : list Event) (data : list SnapshotMetadata) (i : nat)
    (snapshot : LoadedSnapshot) :
  let c := run start evs in
  phase c = AwaitDefault data i →
  mounted c = true →
  let c' := step c (DefaultSettled (Fulfilled snapshot)) in
  phase c' = InitReturned ∧
  isLoading (hook c') = false ∧
  currentSnapshot (hook c') = Some snapshot ∧
  currentMetadata (hook c') = metadata (hook c') !! defaultIndex (hook c') ∧
  is_Some (currentMetadata (hook c')) ∧
  error (hook c') = error (hook c).
Proof.
  intros c Hph Hm c'.
  destruct (run_coherent evs start start_coherent) as (_ & _ & Hphase).
  fold c in Hphase. rewrite Hph in Hphase. destruct Hphase as (Hdata & Hi & Hlt & _).
  unfold c'. simpl. rewrite Hph, resume_init_default_fulfilled, Hm. simpl.
  rewrite Hdata, Hi. repeat split; try done.
  by apply lookup_lt_is_Some_2.
Qed.

Lemma default_snapshot_published_witness :
  phase (run start (Fixtures.image_pending ++ [EntryImageSettled 0 (Fulfilled tt)]))
    = AwaitDefault Fixtures.store 0 ∧
  mounted (run start (Fixtures.image_pending ++ [EntryImageSettled 0 (Fulfilled tt)]))
    = true ∧
  currentSnapshot (hook (step
    (run start (Fixtures.image_pending ++ [EntryImageSettled 0 (Fulfilled tt)]))
    (DefaultSettled (Fulfilled (Fixtures.track "default")))))
    = Some (Fixtures.track "default").
Proof.
  assert (phase (run start (Fixtures.image_pending ++
                              [EntryImageSettled 0 (Fulfilled tt)]))
            = AwaitDefault Fixtures.store 0) as Hph by (vm_compute; reflexivity).
  assert (mounted (run start (Fixtures.image_pending ++
                                [EntryImageSettled 0 (Fulfilled tt)])) = true)
    as Hm by (vm_compute; reflexivity).
  split; [exact Hph|]. split; [exact Hm|].
  exact (proj1 (proj2 (proj2 (default_snapshot_published
    (Fixtures.image_pending ++ [EntryImageSettled 0 (Fulfilled tt)])
    Fixtures.store 0 (Fixtures.track "default") Hph Hm)))).
Defined.

(** X5: a rejection of the last fetch of [init], the one of the default
    snapshot, on a mounted component also ends in the catch block:
    [error] gets the message, [isLoading] becomes false, for good, and
    [currentSnapshot] is not written. *)
Theorem default_fetch_failure_enters_error_state
    (evs evs' : list Event) (data : list SnapshotMetadata) (i : nat) (e : JsValue) :
  let c := run start evs in
  phase c = AwaitDefault data i →
  mounted c = true →
  let c' := step c (DefaultSettled (Rejected e)) in
  phase c' = InitReturned ∧
  error (hook c') = Some (errorMessage e) ∧
  isLoading (hook c') = false ∧
  currentSnapshot (hook c') = currentSnapshot (hook c) ∧
  error (hook (run c' evs')) = Some (errorMessage e) ∧
  isLoading (hook (run c' evs')) = false.
Proof.
  intros c Hph Hm c'.
  assert (c' = failed e c) as Hc'.
  { unfold c'. simpl. by rewrite Hph, resume_init_default_rejected. }
  assert (phase c' = InitReturned) as Hret by (by rewrite Hc').
  destruct (run_after_return evs' c' Hret) as (_ & -> & -> & _).
  rewrite Hc'. unfold failed. rewrite Hm. by repeat split.
Qed.

Lemma default_fetch_failure_enters_error_state_witness :
  phase (run start (Fixtures.image_pending ++ [EntryImageSettled 0 (Fulfilled tt)]))
    = AwaitDefault Fixtures.store 0 ∧
  mounted (run start (Fixtures.image_pending ++ [EntryImageSettled 0 (Fulfilled tt)]))
    = true ∧
  error (hook (step
    (run start (Fixtures.image_pending ++ [EntryImageSettled 0 (Fulfilled tt)]))
    (DefaultSettled (Rejected (OtherValue "404")))))
    = Some "Erreur inconnue".
Proof.
  assert (phase (run start (Fixtures.image_pending ++
                              [EntryImageSettled 0 (Fulfilled tt)]))
            = AwaitDefault Fixtures.store 0) as Hph by (vm_compute; reflexivity).
  assert (mounted (run start (Fixtures.image_pending ++
                                [EntryImageSettled 0 (Fulfilled tt)])) = true)
    as Hm by (vm_compute; reflexivity).
  split; [exact Hph|]. split; [exact Hm|].
  exact (proj1 (proj2 (default_fetch_failure_enters_error_state
    (Fixtures.image_pending ++ [EntryImageSettled 0 (Fulfilled tt)]) []
    Fixtures.store 0 (OtherValue "404") Hph Hm))).
Defined.

Lemma start_settled : settled start.
Proof. by repeat split. Qed.

Lemma settled_same_view c c' : same_view c c' → settled c → settled c'.
Proof.
  intros (Hm & Hnav & Hph & Hmeta & Hsnap & Hcur & Hload & Herr & Hdef).
  unfold settled, ended. rewrite Hm, Hnav, Hph, Hsnap, Hcur, Hload, Herr.
  intros (? & ? & Hphase). repeat split; try done.
  destruct (phase c); try done.
  destruct Hphase as [o Ho]. exists o. rewrite Hmeta, Hdef. done.
Qed.

Lemma step_settled c ev :
  coherent c → settled c →
  unmounts ev = false → navigates ev = false →
  settled (step c ev).
Proof.
  intros Hcoh Hset Hun Hnav. pose proof Hset as (Hm & Hnone & Hphase).
  assert (∀ k meta segment, entry_outcome c (segment c) →
            settled (resume_entry k meta segment c)) as Hentry.
  { intros k meta segment Hout.
    destruct (resume_entry_cases k meta segment c Hout)
      as (c1 & l & Hframe & [-> | [(data & i & Hph & ->) | (data & i & e & Hph & ->)]]);
      destruct Hframe as (Hm1 & Hph1 & _ & Hnav1 & _ & _ & Hmeta1 & Hsnap1 & Hcur1 &
                          Hload1 & Herr1 & Hdef1 & _).
    - apply (settled_same_view c); [by repeat split|done].
    - rewrite resume_init_after_prefetch. simpl. rewrite Hm1, Hm.
      rewrite Hph in Hphase. destruct Hphase as (? & ? & ? & ?).
      unfold settled. simpl.
      rewrite Hm1, Hnav1, Hsnap1, Hcur1, Hload1, Herr1. by repeat split.
    - rewrite Hph in Hphase. destruct Hphase as (_ & _ & Hsnap & Hcur).
      unfold failed, settled. simpl. rewrite Hm1, Hm. simpl.
      rewrite Hnav1. repeat split; try done; [congruence|].
      exists (LoadFailed (errorMessage e)). unfold ended. simpl.
      rewrite Hsnap1, Hcur1. done. }
  destruct ev as [|r now|k r|k r|r|index|k r]; try done; simpl.
  - destruct (phase c) eqn:Hph; try done.
    destruct Hphase as (Hload & Herr & Hsnap & Hcur).
    destruct Hcoh as (_ & _ & Hpristine). rewrite Hph in Hpristine.
    destruct r as [data|e]; unfold resume_init; js_unfold; js_simpl;
      unfold settled; simpl; rewrite ?Hm; simpl.
    + destruct (length data =? 0)%nat eqn:Hempty; js_simpl; rewrite ?Hm; simpl.
      * repeat split; try done. exists NoData. unfold ended. simpl.
        destruct data; done.
      * destruct (0 <? length _)%nat; js_simpl; rewrite ?Hm; simpl; done.
    + repeat split; try done.
      exists (LoadFailed (errorMessage e)). by unfold ended.
  - destruct (prefetch c !! k) as [[meta []]|]; try done.
    apply Hentry, entry_after_snapshot_outcome.
  - destruct (prefetch c !! k) as [[meta [|pending| |]]|]; try done.
    apply Hentry, entry_after_image_outcome.
  - destruct (phase c) as [|? ?|data i|] eqn:Hph; try done.
    destruct Hphase as (Hload & Herr & Hsnap & Hcur).
    destruct Hcoh as (_ & _ & Hdata). rewrite Hph in Hdata.
    destruct Hdata as (Hmeta & Hdef & Hlt & _).
    destruct r as [snapshot|e];
      [rewrite resume_init_default_fulfilled|rewrite resume_init_default_rejected];
      unfold failed, settled; simpl; rewrite Hm; simpl; repeat split; try done.
    + destruct (lookup_lt_is_Some_2 data i Hlt) as [shown Hshown].
      exists (Loaded snapshot shown). unfold ended. simpl.
      rewrite Hmeta, Hdef. done.
    + exists (LoadFailed (errorMessage e)). by unfold ended.
Qed.

Lemma run_settled evs : ∀ c,
  coherent c → settled c →
  Forall (fun ev => unmounts ev = false ∧ navigates ev = false) evs →
  settled (run c evs).
Proof.
  induction evs as [|ev evs IH]; intros c Hcoh Hset Hevs; [done|].
  apply Forall_cons in Hevs as [[Hun Hnav] Hevs].
  apply (IH (step c ev)); [by apply step_coherent|by apply step_settled|done].
Qed.

(** X6: on a component that stays mounted and that nobody navigates, the
    initial load is visible as loading, with no error, snapshot or current
    entry, exactly until [init] returns; from then on [isLoading] is false
    and the cells are in one of three states: no data (empty store, no
    error, no snapshot), failed (an error message, no snapshot), or loaded
    (no error, a snapshot, and as current entry the store's entry at
    [defaultIndex]). *)
Theorem initial_load_ends_in_one_of_three_states (evs : list Event) :
  Forall (fun ev => unmounts ev = false ∧ navigates ev = false) evs →
  let c := run start evs in
  (phase c ≠ InitReturned →
     isLoading (hook c) = true ∧ error (hook c) = None ∧
     currentSnapshot (hook c) = None ∧ currentMetadata (hook c) = None) ∧
  (phase c = InitReturned →
     isLoading (hook c) = false ∧
     ((metadata (hook c) = [] ∧ error (hook c) = None ∧
       currentSnapshot (hook c) = None ∧ currentMetadata (hook c) = None) ∨
      (is_Some (error (hook c)) ∧
       currentSnapshot (hook c) = None ∧ currentMetadata (hook c) = None) ∨
      (error (hook c) = None ∧ is_Some (currentSnapshot (hook c)) ∧
       is_Some (currentMetadata (hook c)) ∧
       currentMetadata (hook c) = metadata (hook c) !! defaultIndex (hook c)))).
Proof.
  intros Hevs c.
  destruct (run_settled evs start start_coherent start_settled Hevs)
    as (_ & _ & Hphase). fold c in Hphase.
  split; intros Hph.
  - destruct (phase c); done.
  - rewrite Hph in Hphase. destruct Hphase as [[|message|snapshot shown] [Hload Ho]];
      (split; [done|]).
    + by left.
    + right. left. destruct Ho as (-> & ? & ?). eauto.
    + right. right. destruct Ho as (? & -> & -> & ->). eauto.
Qed.

Lemma initial_load_ends_in_one_of_three_states_witness :
  Forall (fun ev => unmounts ev = false ∧ navigates ev = false)
         (Fixtures.image_pending ++
            [EntryImageSettled 0 (Rejected (ErrorObject "Failed to load image"))]) ∧
  phase (run start (Fixtures.image_pending ++
            [EntryImageSettled 0 (Rejected (ErrorObject "Failed to load image"))]))
    = InitReturned ∧
  isLoading (hook (run start (Fixtures.image_pending ++
            [EntryImageSettled 0 (Rejected (ErrorObject "Failed to load image"))])))
    = false.
Proof.
  assert (Forall (fun ev => unmounts ev = false ∧ navigates ev = false)
            (Fixtures.image_pending ++
               [EntryImageSettled 0 (Rejected (ErrorObject "Failed to load image"))]))
    as Hevs by (repeat constructor).
  assert (phase (run start (Fixtures.image_pending ++
            [EntryImageSettled 0 (Rejected (ErrorObject "Failed to load image"))]))
          = InitReturned) as Hph by (vm_compute; reflexivity).
  split; [exact Hevs|]. split; [exact Hph|].
  exact (proj1 (proj2 (initial_load_ends_in_one_of_three_states _ Hevs) Hph)).
Defined.

(** *** Navigation *)

Lemma step_LoadSnapshot_in_range c index :
  0 ≤ index < Z.of_nat (length (metadata (hook c))) →
  ∃ meta, metadata (hook c) !! Z.to_nat index = Some meta ∧
    step c (LoadSnapshot index) =
      with_navigation (navigation c ++ [Some meta])
        (snd (setCurrentMetadata (Some meta) c)).
Proof.
  intros Hin. destruct (loadSnapshot_call_in_range c index Hin) as (meta & Hmeta & Hcall).
  exists meta. split; [done|]. simpl. by rewrite Hcall.
Qed.

Lemma step_NavigationSettled_fulfilled c k meta snapshot :
  navigation c !! k = Some (Some meta) →
  step c (NavigationSettled k (Fulfilled snapshot)) =
    with_navigation (<[k := None]> (navigation c))
      (snd (setCurrentSnapshot (Some snapshot) c)).
Proof. intros Hk. simpl. by rewrite Hk. Qed.

(** X7: two calls of [loadSnapshot] in a row, both in range, leave
    [currentMetadata] at the entry of the second call; [currentSnapshot]
    ends as the snapshot of whichever fetch fulfilled last.  If the fetch
    of the first call fulfils after that of the second, the hook shows
    the entry of the second call with the snapshot of the first. *)
Theorem snapshot_of_last_settled_fetch_wins
    (c : Config) (i j : Z) (first second : LoadedSnapshot) :
  0 ≤ i < Z.of_nat (length (metadata (hook c))) →
  0 ≤ j < Z.of_nat (length (metadata (hook c))) →
  let k := length (navigation c) in
  let called := run c [LoadSnapshot i; LoadSnapshot j] in
  let in_order := run called [NavigationSettled k (Fulfilled first);
                              NavigationSettled (S k) (Fulfilled second)] in
  let reversed := run called [NavigationSettled (S k) (Fulfilled second);
                              NavigationSettled k (Fulfilled first)] in
  currentMetadata (hook in_order) = metadata (hook c) !! Z.to_nat j ∧
  currentSnapshot (hook in_order) = Some second ∧
  currentMetadata (hook reversed) = metadata (hook c) !! Z.to_nat j ∧
  currentSnapshot (hook reversed) = Some first.
Proof.
  intros Hi Hj k called in_order reversed.
  destruct (step_LoadSnapshot_in_range c i Hi) as (mi & Hmi & Hstep1).
  destruct (step_LoadSnapshot_in_range (step c (LoadSnapshot i)) j) as (mj & Hmj & Hstep2).
  { by rewrite Hstep1. }
  rewrite Hstep1 in Hmj. simpl in Hmj. rewrite Hmj.
  assert (called = step (step c (LoadSnapshot i)) (LoadSnapshot j)) as Hcalled
    by reflexivity.
  rewrite Hstep2, Hstep1 in Hcalled. simpl in Hcalled.
  assert (navigation called = navigation c ++ [Some mi; Some mj]) as Hnav.
  { rewrite Hcalled. simpl. by rewrite <- app_assoc. }
  assert (currentMetadata (hook called) = Some mj) as Hcur by (by rewrite Hcalled).
  assert (navigation called !! k = Some (Some mi)) as Hk.
  { rewrite Hnav, lookup_app_r by done. by rewrite Nat.sub_diag. }
  assert (navigation called !! S k = Some (Some mj)) as HSk.
  { rewrite Hnav, lookup_app_r by (unfold k; lia).
    by replace (S k - length (navigation c))%nat with 1%nat by (unfold k; lia). }
  assert (in_order = step (step called (NavigationSettled k (Fulfilled first)))
                          (NavigationSettled (S k) (Fulfilled second))) as ->
    by reflexivity.
  assert (reversed = step (step called (NavigationSettled (S k) (Fulfilled second)))
                          (NavigationSettled k (Fulfilled first))) as ->
    by reflexivity.
  rewrite (step_NavigationSettled_fulfilled called k mi first Hk).
  rewrite (step_NavigationSettled_fulfilled called (S k) mj second HSk).
  rewrite (step_NavigationSettled_fulfilled _ (S k) mj second)
    by (simpl; by rewrite list_lookup_insert_ne by lia).
  rewrite (step_NavigationSettled_fulfilled _ k mi first)
    by (simpl; by rewrite list_lookup_insert_ne by lia).
  simpl. by rewrite Hcur.
Qed.

Lemma snapshot_of_last_settled_fetch_wins_witness :
  (0 ≤ 0 < Z.of_nat (length (metadata (hook Fixtures.ready)))) ∧
  (0 ≤ 1 < Z.of_nat (length (metadata (hook Fixtures.ready)))) ∧
  currentSnapshot (hook (run (run Fixtures.ready [LoadSnapshot 0; LoadSnapshot 1])
    [NavigationSettled (S (length (navigation Fixtures.ready)))
       (Fulfilled (Fixtures.track "recent"));
     NavigationSettled (length (navigation Fixtures.ready))
       (Fulfilled (Fixtures.track "older"))]))
    = Some (Fixtures.track "older").
Proof.
  assert (0 ≤ 0 < Z.of_nat (length (metadata (hook Fixtures.ready)))) as H0
    by (vm_compute; split; congruence).
  assert (0 ≤ 1 < Z.of_nat (length (metadata (hook Fixtures.ready)))) as H1
    by (vm_compute; split; congruence).
  split; [exact H0|]. split; [exact H1|].
  exact (proj2 (proj2 (proj2 (snapshot_of_last_settled_fetch_wins
    Fixtures.ready 0 1 (Fixtures.track "older") (Fixtures.track "recent") H0 H1)))).
Defined.

(** X8: navigation stays out of the initial load.  A call of
    [loadSnapshot] or the settling of its fetch never changes the store,
    [defaultIndex], [isLoading], [error], the progress cells, the
    [mounted] flag, where [init] is suspended, or the prefetch batch and
    its counters. *)
Theorem navigation_leaves_initial_load_alone (c : Config) (ev : Event) :
  navigates ev = true →
  let c' := step c ev in
  metadata (hook c') = metadata (hook c) ∧
  defaultIndex (hook c') = defaultIndex (hook c) ∧
  isLoading (hook c') = isLoading (hook c) ∧
  error (hook c') = error (hook c) ∧
  loadingProgress (hook c') = loadingProgress (hook c) ∧
  loadingMessage (hook c') = loadingMessage (hook c) ∧
  mounted c' = mounted c ∧ phase c' = phase c ∧
  prefetch c' = prefetch c ∧ total c' = total c ∧ completed c' = completed c.
Proof.
  intros Hnav c'. unfold c'.
  destruct ev as [| | | | |index|k r]; try done.
  - by destruct (step_LoadSnapshot c index) as [-> | [meta ->]].
  - by destruct (step_NavigationSettled c k r) as [-> | [[? ->] | [? ->]]].
Qed.

Lemma navigation_leaves_initial_load_alone_witness :
  navigates (LoadSnapshot 1) = true ∧
  isLoading (hook (step Fixtures.preloading (LoadSnapshot 1))) =
    isLoading (hook Fixtures.preloading).
Proof.
  split; [reflexivity|].
  exact (proj1 (proj2 (proj2 (navigation_leaves_initial_load_alone
                                Fixtures.preloading (LoadSnapshot 1) eq_refl)))).
Defined.

End HookInvariantFacts.

Module StableSortFacts.
Import StableSort.

Section WithKey.
Context {A : Type} (key : A → Z).

Lemma insertBy_perm e sorted : insertBy key e sorted ≡ₚ e :: sorted.
Proof.
  induction sorted as [|e' rest IH]; simpl; [done|].
  destruct (_ <? _); [done|]. rewrite IH. apply Permutation_swap.
Qed.

Lemma sortBy_perm_acc xs : ∀ acc,
  foldl (fun sorted e => insertBy key e sorted) acc xs ≡ₚ acc ++ xs.
Proof.
  induction xs as [|e xs IH]; intros acc; simpl.
  - by rewrite app_nil_r.
  - rewrite IH, insertBy_perm. simpl. apply Permutation_middle.
Qed.

Lemma sortBy_perm xs : sortBy key xs ≡ₚ xs.
Proof. unfold sortBy. by rewrite sortBy_perm_acc. Qed.

Lemma insertBy_ascending e sorted :
  ascending key sorted → ascending key (insertBy key e sorted).
Proof.
  unfold ascending. induction 1 as [|e' rest Hrest IH Hle]; simpl.
  - repeat constructor.
  - destruct (Z.ltb_spec (key e) (key e')) as [Hlt|Hge].
    + constructor; [by constructor|].
      constructor; [lia|]. eapply Forall_impl; [exact Hle|]. simpl. intros; lia.
    + constructor; [done|].
      rewrite insertBy_perm. by constructor.
Qed.

Lemma sortBy_ascending_acc xs : ∀ acc,
  ascending key acc →
  ascending key (foldl (fun sorted e => insertBy key e sorted) acc xs).
Proof.
  induction xs as [|e xs IH]; intros acc Hacc; simpl; [done|].
  by apply IH, insertBy_ascending.
Qed.

Lemma sortBy_ascending xs : ascending key (sortBy key xs).
Proof. apply sortBy_ascending_acc. constructor. Qed.

(** Two elements of a list whose keys are pairwise distinct are equal
    as soon as their keys are. *)
Lemma key_inj_in xs a b :
  NoDup (key <$> xs) → a ∈ xs → b ∈ xs → key a = key b → a = b.
Proof.
  induction xs as [|x xs IH]; intros Hnd Ha Hb Hk; [by apply not_elem_of_nil in Ha|].
  rewrite fmap_cons in Hnd. apply NoDup_cons in Hnd as [Hx Hnd].
  apply elem_of_cons in Ha as [->|Ha]; apply elem_of_cons in Hb as [->|Hb].
  - done.
  - exfalso. apply Hx. rewrite Hk. by apply list_elem_of_fmap_2.
  - exfalso. apply Hx. rewrite <- Hk. by apply list_elem_of_fmap_2.
  - by apply IH.
Qed.

(** With pairwise distinct keys a list has one ascending arrangement. *)
Lemma ascending_unique xs : ∀ ys,
  NoDup (key <$> xs) → xs ≡ₚ ys → ascending key xs → ascending key ys → xs = ys.
Proof.
  unfold ascending.
  induction xs as [|a xs IH]; intros ys Hnd Hp Hxs Hys.
  - by apply Permutation_nil_l in Hp.
  - destruct ys as [|b ys]; [by apply Permutation_nil_r in Hp|].
    apply StronglySorted_inv in Hxs as [Hxs Ha].
    apply StronglySorted_inv in Hys as [Hys Hb].
    assert (a ∈ b :: ys) as Hain by (rewrite <- Hp; apply list_elem_of_here).
    assert (b ∈ a :: xs) as Hbin by (rewrite Hp; apply list_elem_of_here).
    assert (key a ≤ key b) as Hab.
    { apply elem_of_cons in Hbin as [->|Hbin]; [lia|].
      rewrite Forall_forall in Ha. by apply Ha. }
    assert (key b ≤ key a) as Hba.
    { apply elem_of_cons in Hain as [->|Hain]; [lia|].
      rewrite Forall_forall in Hb. by apply Hb. }
    assert (a = b) as <-.
    { apply (key_inj_in (a :: xs)); [done|apply list_elem_of_here|done|lia]. }
    f_equal. apply IH; [|by apply (inj (cons a))|done|done].
    rewrite fmap_cons in Hnd. by apply NoDup_cons in Hnd as [_ ?].
Qed.

End WithKey.

End StableSortFacts.

Module IndexOrderFacts.
Import DefaultIndex IndexGenerator ApiFetcher StableSort StableSortFacts.

Lemma insertByTimestamp_insertBy e sorted :
  insertByTimestamp e sorted = insertBy timestamp e sorted.
Proof. induction sorted as [|e' rest IH]; simpl; [done|]. by rewrite IH. Qed.

Lemma sortByTimestamp_sortBy files : sortByTimestamp files = sortBy timestamp files.
Proof.
  unfold sortByTimestamp, sortBy. generalize (@nil ApiDataMetadata).
  induction files as [|e files IH]; intros acc; simpl; [done|].
  by rewrite insertByTimestamp_insertBy, IH.
Qed.

Lemma generateJSON_sorted_permutation (found : list JsonFile) :
  generateJSON found ≡ₚ getJsonFiles found ∧
  length (generateJSON found) = length found ∧
  StronglySorted (fun a b => timestamp a ≤ timestamp b) (generateJSON found).
Proof.
  unfold generateJSON. rewrite sortByTimestamp_sortBy.
  split; [apply sortBy_perm|]. split.
  - rewrite (sortBy_perm timestamp). unfold getJsonFiles. apply length_fmap.
  - apply (sortBy_ascending timestamp).
Qed.

(** X9: the index that [generateJSON] writes holds exactly the entries
    [getJsonFiles] collected, each once, in ascending order of
    timestamp. *)
Theorem generateJSON_sorts_the_index (found : list JsonFile) :
  generateJSON found ≡ₚ getJsonFiles found ∧
  length (generateJSON found) = length found ∧
  StronglySorted (fun a b => timestamp a ≤ timestamp b) (generateJSON found).
Proof. apply generateJSON_sorted_permutation. Qed.

(** X10: when no two collected files share a timestamp, the index is
    fixed by the files alone: the output of [generateJSON] is the only
    ascending arrangement of the entries [getJsonFiles] collected, so a
    directory walk that meets the same files in another order gives the
    same index. *)
Theorem generateJSON_ignores_walk_order (found : list JsonFile) :
  NoDup (timestamp <$> getJsonFiles found) →
  (∀ out, out ≡ₚ getJsonFiles found →
          StronglySorted (fun a b => timestamp a ≤ timestamp b) out →
          out = generateJSON found) ∧
  (∀ found', found' ≡ₚ found → generateJSON found' = generateJSON found).
Proof.
  intros Hnd.
  assert (∀ out, out ≡ₚ getJsonFiles found →
                 StronglySorted (fun a b => timestamp a ≤ timestamp b) out →
                 out = generateJSON found) as Honly.
  { intros out Hp Hs.
    destruct (generateJSON_sorted_permutation found) as (Hperm & _ & Hsorted).
    symmetry. apply (ascending_unique timestamp); [|by rewrite Hperm|done|done].
    by rewrite Hperm. }
  split; [exact Honly|].
  intros found' Hp. apply Honly.
  - destruct (generateJSON_sorted_permutation found') as (Hperm & _ & _).
    rewrite Hperm. unfold getJsonFiles. by rewrite Hp.
  - by destruct (generateJSON_sorted_permutation found') as (_ & _ & ?).
Qed.

Lemma generateJSON_ignores_walk_order_witness :
  NoDup (timestamp <$> getJsonFiles twoRuns) ∧
  reverse twoRuns ≡ₚ twoRuns ∧
  generateJSON (reverse twoRuns) = generateJSON twoRuns.
Proof.
  assert (NoDup (timestamp <$> getJsonFiles twoRuns)) as Hnd
    by (by apply (bool_decide_unpack _); vm_compute).
  assert (reverse twoRuns ≡ₚ twoRuns) as Hp by apply reverse_Permutation.
  split; [exact Hnd|]. split; [exact Hp|].
  exact (proj2 (generateJSON_ignores_walk_order twoRuns Hnd) (reverse twoRuns) Hp).
Defined.

(** A threshold filter on an ascending list keeps a suffix. *)
Lemma filter_threshold_suffix (store : list SnapshotMetadata) (horizon : Z) :
  StronglySorted (fun a b => Types.timestamp a ≤ Types.timestamp b) store →
  ∃ k, snapshotsToPrefetch store horizon = drop k store ∧
       Forall (fun meta => Types.timestamp meta < horizon) (take k store).
Proof.
  unfold snapshotsToPrefetch.
  induction 1 as [|meta store Hs IH Hle]; simpl; [by exists 0%nat|].
  destruct (Z.leb_spec horizon (Types.timestamp meta)) as [Hin|Hout].
  - exists 0%nat. split; [|constructor]. simpl. f_equal.
    clear IH Hs. induction store as [|m store IH]; simpl; [done|].
    apply Forall_cons in Hle as [Hm Hle].
    destruct (Z.leb_spec horizon (Types.timestamp m)); [|lia]. by rewrite IH.
  - destruct IH as (k & Hk & Hbefore). exists (S k). simpl.
    split; [done|]. by constructor.
Qed.

Lemma metadataStore_ascending found :
  StronglySorted (fun a b => Types.timestamp a ≤ Types.timestamp b)
                 (metadataStore found).
Proof.
  unfold metadataStore.
  destruct (generateJSON_sorted_permutation found) as (_ & _ & Hs).
  induction Hs as [|e l _ IH Hle]; simpl; constructor; [done|].
  apply Forall_fmap. eapply Forall_impl; [exact Hle|]. done.
Qed.

(** X11: on a store written by the generator, the entries [init] selects
    for prefetching are a suffix of the store, whatever the horizon: the
    store splits into the entries before the horizon, which are skipped,
    and the rest, which are all selected, in store order. *)
Theorem prefetch_set_is_a_suffix_of_the_index (found : list JsonFile) (horizon : Z) :
  ∃ k,
    snapshotsToPrefetch (metadataStore found) horizon = drop k (metadataStore found) ∧
    Forall (fun meta => Types.timestamp meta < horizon) (take k (metadataStore found)) ∧
    Forall (fun meta => horizon ≤ Types.timestamp meta) (drop k (metadataStore found)).
Proof.
  destruct (filter_threshold_suffix _ horizon (metadataStore_ascending found))
    as (k & Hk & Hbefore).
  exists k. repeat split; try done.
  rewrite <- Hk. unfold snapshotsToPrefetch. apply Forall_forall. intros meta Hin.
  apply list_elem_of_In, filter_In in Hin as [_ Hin]. lia.
Qed.

End IndexOrderFacts.

Module ApiFetcherFacts.
Import IndexGenerator ApiFetcher.

Lemma occurs_app c s1 s2 : occurs c (s1 +:+ s2) = occurs c s1 || occurs c s2.
Proof. induction s1 as [|a s1 IH]; simpl; [done|]. by rewrite IH, orb_assoc. Qed.

Lemma occurs_replaceAll c d s : c ≠ d → occurs c (replaceAll c d s) = false.
Proof.
  intros Hne. induction s as [|a s IH]; simpl; [done|]. rewrite IH, orb_false_r.
  destruct (Ascii.eqb_spec a c) as [->|Hac].
  - apply Ascii.eqb_neq. congruence.
  - by apply Ascii.eqb_neq.
Qed.

Lemma replaceAll_absent c d s : occurs c s = false → replaceAll c d s = s.
Proof.
  induction s as [|a s IH]; simpl; [done|].
  intros [Ha Hs]%orb_false_elim. by rewrite Ha, IH.
Qed.

Lemma replaceAll_inverse c d s :
  occurs d s = false → replaceAll d c (replaceAll c d s) = s.
Proof.
  induction s as [|a s IH]; simpl; [done|].
  intros [Ha Hs]%orb_false_elim. rewrite IH by done. f_equal.
  destruct (Ascii.eqb_spec a c) as [->|Hac].
  - by rewrite Ascii.eqb_refl.
  - by rewrite Ha.
Qed.

Lemma orElse_nonempty s d : s ≠ "" → orElse (Some s) d = s.
Proof.
  intros Hs. unfold orElse. destruct (String.eqb_spec s ""); done.
Qed.

(** X12: the [date] that the index records for a file written by a run of
    [main] is the date and the time of day under which that run named its
    directory: the dashes that [main] put in place of the colons of the
    time are turned back into colons.  This needs the time of day to be
    non-empty and free of dashes, as [HH:MM:SS] is. *)
Theorem index_date_is_the_run_time
    (isoString timeString cycloneId : string) (mtime : Z)
    (content : option (option string * option string)) :
  let timeOfDay := beforeFirst " " timeString in
  timeOfDay ≠ "" →
  occurs "-" timeOfDay = false →
  date (describe (listFile isoString timeString mtime))
    = dateStrOf isoString +:+ " " +:+ timeOfDay ∧
  date (describe (trajectoryFile isoString timeString cycloneId mtime content))
    = dateStrOf isoString +:+ " " +:+ timeOfDay.
Proof.
  intros timeOfDay Hne Hdash.
  assert (orElse (Some (replaceAll "-" ":" (timeStrOf timeString))) "00:00:00"
          = timeOfDay) as Htime.
  { unfold timeStrOf. fold timeOfDay. rewrite replaceAll_inverse by done.
    by apply orElse_nonempty. }
  unfold orElse in Htime.
  unfold describe, listFile, trajectoryFile. simpl. by rewrite Htime.
Qed.

Lemma index_date_is_the_run_time_witness :
  beforeFirst " " "21:13:20 GMT+0400 (Reunion Time)" ≠ "" ∧
  occurs "-" (beforeFirst " " "21:13:20 GMT+0400 (Reunion Time)") = false ∧
  date (describe (listFile "2023-11-14T17:13:20.000Z"
                           "21:13:20 GMT+0400 (Reunion Time)" 1699981200000))
    = "2023-11-14 21:13:20".
Proof.
  assert (beforeFirst " " "21:13:20 GMT+0400 (Reunion Time)" ≠ "") as Hne by done.
  assert (occurs "-" (beforeFirst " " "21:13:20 GMT+0400 (Reunion Time)") = false)
    as Hdash by reflexivity.
  split; [exact Hne|]. split; [exact Hdash|].
  exact (proj1 (index_date_is_the_run_time "2023-11-14T17:13:20.000Z"
                  "21:13:20 GMT+0400 (Reunion Time)" "" 1699981200000 None
                  Hne Hdash)).
Defined.

(** X13: the [path] of every index entry starts with [data/] and what
    follows holds no backslash; when no component of the file's relative
    path holds one, it is those components joined by slashes. *)
Theorem index_path_has_no_backslash (f : JsonFile) :
  ∃ rest,
    path (describe f) = "data/" +:+ rest ∧
    occurs "\" rest = false ∧
    (occurs "\" (String.concat "/" (parts f)) = false →
     rest = String.concat "/" (parts f)).
Proof.
  exists (replaceAll "\" "/" (String.concat "/" (parts f))).
  split; [done|]. split.
  - by apply occurs_replaceAll.
  - apply replaceAll_absent.
Qed.

(** X14: the file name that [main] derives from a cyclone id holds
    neither a slash nor a dollar sign, so it names a file directly in the
    directory of the run; it is as long as the id, and an id without
    those two characters is used unchanged. *)
Theorem sanitized_id_is_one_path_component (cycloneId : string) :
  occurs "/" (sanitize cycloneId) = false ∧
  occurs "$" (sanitize cycloneId) = false ∧
  String.length (sanitize cycloneId) = String.length cycloneId ∧
  (occurs "/" cycloneId = false → occurs "$" cycloneId = false →
   sanitize cycloneId = cycloneId).
Proof.
  induction cycloneId as [|a s IH]; simpl; [done|].
  destruct IH as (IH1 & IH2 & IH3 & IH4). rewrite IH1, IH2, IH3.
  destruct (Ascii.eqb a "/") eqn:Hslash; destruct (Ascii.eqb a "$") eqn:Hdollar;
    simpl; rewrite ?Hslash, ?Hdollar; repeat split; try done.
  intros. by rewrite IH4.
Qed.

Lemma sanitized_id_is_one_path_component_witness :
  occurs "/" "SWI20232024-01" = false ∧ occurs "$" "SWI20232024-01" = false ∧
  sanitize "SWI20232024-01" = "SWI20232024-01".
Proof.
  split; [reflexivity|]. split; [reflexivity|].
  exact (proj2 (proj2 (proj2 (sanitized_id_is_one_path_component "SWI20232024-01")))
           eq_refl eq_refl).
Defined.

Lemma length_append s1 s2 :
  String.length (s1 +:+ s2) = (String.length s1 + String.length s2)%nat.
Proof. induction s1 as [|a s1 IH]; simpl; [done|]. by rewrite IH. Qed.

Lemma prefix_cons_ne a b s1 s2 :
  a ≠ b → String.prefix (String a s1) (String b s2) = false.
Proof. intros Hne. simpl. by destruct (ascii_dec a b). Qed.

Lemma replaceFirst_json_suffix s :
  occurs "." s = false → replaceFirst ".json" "" (s +:+ ".json") = s.
Proof.
  induction s as [|a s IH]; [done|].
  simpl occurs. intros [Ha Hs]%orb_false_elim.
  apply Ascii.eqb_neq in Ha.
  change (String a s +:+ ".json") with (String a (s +:+ ".json")).
  unfold replaceFirst; fold replaceFirst.
  rewrite prefix_cons_ne by congruence. by rewrite IH.
Qed.

Lemma occurs_sanitize c s :
  c ≠ "_"%char → occurs c s = false → occurs c (sanitize s) = false.
Proof.
  intros Hc. induction s as [|a s IH]; simpl; [done|].
  intros [Ha Hs]%orb_false_elim. rewrite IH by done. rewrite orb_false_r.
  destruct (_ || _); [|done]. apply Ascii.eqb_neq. congruence.
Qed.

Lemma replaceAll_sanitize s :
  occurs "_" s = false → replaceAll "_" "/" (sanitize s) = replaceAll "$" "/" s.
Proof.
  induction s as [|a s IH]; simpl; [done|].
  intros [Ha Hs]%orb_false_elim. rewrite IH by done. f_equal.
  destruct (Ascii.eqb_spec a "/") as [->|Hslash]; [done|].
  destruct (Ascii.eqb_spec a "$") as [->|Hdollar]; [done|].
  simpl. by rewrite Ha.
Qed.

(** X15: when a trajectory file cannot be read back, the cyclone id that
    the index takes from its file name is the original id with every
    dollar sign turned into a slash, for ids without dots and
    underscores; so it is the original id exactly when that id has no
    dollar sign either, and the name field stays undefined. *)
Theorem fallback_id_turns_dollars_into_slashes
    (isoString timeString cycloneId : string) (mtime : Z) :
  occurs "." cycloneId = false →
  occurs "_" cycloneId = false →
  sanitize cycloneId ≠ "cyclone_list" →
  let e := describe (trajectoryFile isoString timeString cycloneId mtime None) in
  type e = cyclone_trajectory ∧
  cyclone_id e = Some (replaceAll "$" "/" cycloneId) ∧
  cyclone_name e = None ∧
  (occurs "$" cycloneId = false → cyclone_id e = Some cycloneId).
Proof.
  intros Hdot Hunder Hlist e.
  assert (fallbackCycloneId (sanitize cycloneId +:+ ".json")
          = replaceAll "$" "/" cycloneId) as Hid.
  { unfold fallbackCycloneId.
    rewrite replaceFirst_json_suffix by (by apply occurs_sanitize).
    by apply replaceAll_sanitize. }
  assert (String.eqb (sanitize cycloneId +:+ ".json") "cyclone_list.json" = false)
    as Hname.
  { apply String.eqb_neq. intros Heq. apply Hlist.
    change "cyclone_list.json" with ("cyclone_list" +:+ ".json") in Heq.
    revert Heq. generalize (sanitize cycloneId). generalize "cyclone_list".
    intros s1 s2 Heq.
    assert (String.length s2 = String.length s1) as Hlen.
    { apply (f_equal String.length) in Heq.
      rewrite !length_append in Heq. lia. }
    revert s1 Hlen Heq. induction s2 as [|a s2 IH]; intros [|b s1] Hlen Heq;
      simpl in *; try done.
    injection Heq as -> Heq. f_equal. apply IH; [lia|done]. }
  assert (orElse (Some (sanitize cycloneId +:+ ".json"))
                 (sanitize cycloneId +:+ ".json")
          = sanitize cycloneId +:+ ".json") as Hor.
  { unfold orElse. by destruct (String.eqb _ ""). }
  unfold e, describe, trajectoryFile. simpl parts. simpl entryName.
  simpl cycloneInfo. simpl lookup. rewrite Hor, Hname. simpl.
  rewrite Hid. repeat split.
  intros Hdollar. by rewrite replaceAll_absent.
Qed.

Lemma fallback_id_turns_dollars_into_slashes_witness :
  occurs "." "SWI$01/20232024" = false ∧
  occurs "_" "SWI$01/20232024" = false ∧
  sanitize "SWI$01/20232024" ≠ "cyclone_list" ∧
  cyclone_id (describe (trajectoryFile "2023-11-14T17:13:20.000Z"
                          "21:13:20 GMT+0400" "SWI$01/20232024" 1699981200000 None))
    = Some "SWI/01/20232024".
Proof.
  assert (sanitize "SWI$01/20232024" ≠ "cyclone_list") as Hlist by done.
  split; [reflexivity|]. split; [reflexivity|]. split; [exact Hlist|].
  exact (proj1 (proj2 (fallback_id_turns_dollars_into_slashes
                         "2023-11-14T17:13:20.000Z" "21:13:20 GMT+0400"
                         "SWI$01/20232024" 1699981200000 eq_refl eq_refl Hlist))).
Defined.

Lemma index_path_has_no_backslash_witness :
  occurs "\" (String.concat "/" (parts (listFile "2023-11-14T17:13:20.000Z"
                                           "21:13:20 GMT+0400" 1699981200000)))
    = false ∧
  path (describe (listFile "2023-11-14T17:13:20.000Z" "21:13:20 GMT+0400"
                           1699981200000))
    = "data/2023-11-14/21-13-20/cyclone_list.json".
Proof.
  split; [reflexivity|].
  destruct (index_path_has_no_backslash
              (listFile "2023-11-14T17:13:20.000Z" "21:13:20 GMT+0400" 1699981200000))
    as (rest & -> & _ & Hrest).
  rewrite Hrest by reflexivity. reflexivity.
Defined.

End ApiFetcherFacts.

Module IndexViewerFacts.
Import DefaultIndex Hook IndexGenerator HookFacts IndexGeneratorFacts IndexOrderFacts.

Lemma metadataStore_length found : length (metadataStore found) = length found.
Proof.
  unfold metadataStore. rewrite length_fmap.
  by destruct (generateJSON_sorted_permutation found) as (_ & -> & _).
Qed.

Lemma init_without_prefetch data now :
  data ≠ [] → snapshotsToPrefetch data (twoDaysAgo now) = [] →
  let c := step start (MetadataSettled (Fulfilled data) now) in
  prefetch c = [] ∧ total c = 0%nat ∧
  defaultIndex (hook c) = findDefaultIndex data (twoDaysAgo now) ∧
  phase c = AwaitDefault data (findDefaultIndex data (twoDaysAgo now)).
Proof.
  intros Hne Hnone. simpl. unfold resume_init. js_unfold. js_simpl.
  destruct (length data =? 0)%nat eqn:Hempty; [by destruct data|].
  js_simpl. rewrite Hnone. simpl. done.
Qed.

(** X21: what the viewer does with an index written by the generator.
    At any time after 3 January 1970, with no file dated in the future,
    the horizon of [init] (milliseconds) lies beyond every timestamp of
    the store (seconds): [init] prefetches nothing, goes straight on to
    fetch the default snapshot, and its default index is that of an entry
    with the greatest timestamp of the store. *)
Theorem generated_index_opens_on_its_newest_entry
    (found : list JsonFile) (now : Z) :
  172972973 ≤ now →
  Forall (fun f => mtimeMs f ≤ now) found →
  found ≠ [] →
  let store := metadataStore found in
  let c := step start (MetadataSettled (Fulfilled store) now) in
  prefetch c = [] ∧ total c = 0%nat ∧
  phase c = AwaitDefault store (defaultIndex (hook c)) ∧
  ∃ newest,
    store !! defaultIndex (hook c) = Some newest ∧
    Forall (fun meta => Types.timestamp meta ≤ Types.timestamp newest) store.
Proof.
  intros Hnow Hfiles Hne store c.
  pose proof (generated_store_never_prefetched found now Hnow Hfiles) as Hnone.
  fold store in Hnone.
  assert (store ≠ []) as Hstore.
  { intros Heq. apply (f_equal length) in Heq. unfold store in Heq.
    rewrite metadataStore_length in Heq. by destruct found. }
  destruct (init_without_prefetch store now Hstore Hnone) as (Hpre & Htotal & Hi & Hph).
  fold c in Hpre, Htotal, Hi, Hph. rewrite <- Hi in Hph.
  repeat split; try done. rewrite Hi.
  destruct (findDefaultIndex_first_nearest store (twoDaysAgo now) Hstore)
    as (newest & Hlookup & Hmin & _).
  exists newest. split; [done|].
  assert (∀ meta, meta ∈ store → Types.timestamp meta < twoDaysAgo now) as Hbefore.
  { intros meta Hin.
    assert (meta ∉ snapshotsToPrefetch store (twoDaysAgo now)) as Hout
      by (rewrite Hnone; apply not_elem_of_nil).
    unfold snapshotsToPrefetch in Hout.
    rewrite list_elem_of_In, filter_In, <- list_elem_of_In in Hout.
    destruct (Z.leb_spec (twoDaysAgo now) (Types.timestamp meta)); [|done].
    exfalso. apply Hout. by split. }
  apply Forall_forall. intros meta Hin.
  pose proof (Hbefore meta Hin) as Hm.
  pose proof (Hbefore newest (list_elem_of_lookup_2 _ _ _ Hlookup)) as Hn.
  apply list_elem_of_lookup in Hin as [j Hj].
  specialize (Hmin j meta Hj). unfold distance in Hmin. lia.
Qed.

Lemma generated_index_opens_on_its_newest_entry_witness :
  172972973 ≤ Fixtures.noon ∧
  Forall (fun f => mtimeMs f ≤ Fixtures.noon) oneFile ∧
  oneFile ≠ [] ∧
  prefetch (step start (MetadataSettled (Fulfilled (metadataStore oneFile))
                                        Fixtures.noon)) = [].
Proof.
  assert (172972973 ≤ Fixtures.noon) as Hnow by (vm_compute; congruence).
  assert (Forall (fun f => mtimeMs f ≤ Fixtures.noon) oneFile) as Hfiles
    by (repeat constructor; vm_compute; congruence).
  assert (oneFile ≠ []) as Hne by done.
  split; [exact Hnow|]. split; [exact Hfiles|]. split; [exact Hne|].
  exact (proj1 (generated_index_opens_on_its_newest_entry oneFile Fixtures.noon
                  Hnow Hfiles Hne)).
Defined.

End IndexViewerFacts.
